(** * Song service: a shallow embedding of [backend/routes.py]

    The service keeps one MongoDB collection, [db.songs], and exposes it
    through seven Flask routes.  The handlers are embedded as functions in a
    small state-and-exception monad over the collection; the store calls they
    make ([find_one], [insert_one], [update_one], [delete_one], ...) are
    embedded as operations on a list of documents.

    Conventions of the embedding.
    - A request body ([request.get_json()]) is a JSON object whose values are
      JSON scalars; a stored document may moreover hold an [ObjectId].
    - The collection is the list of its documents in insertion order, which
      is the order in which [find_one], [update_one] and [delete_one] pick
      "the first" match.
    - A store call either raises or takes effect as described here; a call
      that raises has had no effect on the collection.  Which calls of a
      request raise is an input of the embedding (the [failures] of the
      request), since it is decided outside this module: by the connection,
      by the driver's encoder, by the server.  [reply], [after] and [calls]
      are the run in which no store call raises.
    - The update document of [update_one] is embedded for bodies whose keys
      are plain field names ([plain_fields]): the server reads a dotted key
      as a path into an embedded document and refuses to change [_id].
    - [ObjectId()] is embedded as "an identifier not used by any document of
      the collection". *)

From Stdlib Require Import Ascii.
From stdpp Require Import gmap strings list fin_maps pretty.

Open Scope Z_scope.

(** ** Values *)

(** A JSON scalar, as [json.loads] hands it to Python. *)
Inductive jval :=
  | JNull
  | JBool (b : bool)
  | JInt (n : Z)
  | JStr (s : string).

(** A Python value held by a document read from the store. *)
Inductive bval :=
  | BJson (v : jval)
  | BOid (o : N).

Global Instance jval_eq_dec : EqDecision jval.
Proof. solve_decision. Defined.

Global Instance bval_eq_dec : EqDecision bval.
Proof. solve_decision. Defined.

(** A JSON text, as it leaves the service in a response body. *)
#[local] Set Warnings "-register-all".
Inductive json :=
  | JVal (v : jval)
  | JArr (l : list json)
  | JObj (fields : list (string * json)).

Abbreviation payload := (gmap string jval).
Abbreviation document := (gmap string bval).
Abbreviation collection := (list (gmap string bval)).

(** Python's [a == b] on the values above: [True == 1] and [False == 0]
    hold, an [ObjectId] equals only itself. *)
Definition py_eq (a b : bval) : bool :=
  match a, b with
  | BOid x, BOid y => bool_decide (x = y)
  | BJson JNull, BJson JNull => true
  | BJson (JStr s), BJson (JStr t) => bool_decide (s = t)
  | BJson (JInt m), BJson (JInt n) => bool_decide (m = n)
  | BJson (JBool b), BJson (JBool c) => bool_decide (b = c)
  | BJson (JBool b), BJson (JInt n) => bool_decide (Z.b2z b = n)
  | BJson (JInt n), BJson (JBool b) => bool_decide (n = Z.b2z b)
  | _, _ => false
  end.

(** Python's [str(v)], as the f-string of [create_song] uses it. *)
Definition pystr (v : jval) : string :=
  match v with
  | JNull => "None"
  | JBool true => "True"
  | JBool false => "False"
  | JInt n => pretty n
  | JStr s => s
  end.

Definition hex_digit (n : N) : ascii :=
  nth (N.to_nat n) (String.list_ascii_of_string "0123456789abcdef") "0"%char.

Fixpoint hex_digits (len : nat) (o : N) (acc : string) : string :=
  match len with
  | O => acc
  | S len' => hex_digits len' (o / 16)%N (String (hex_digit (o mod 16)%N) acc)
  end.

(** [str(ObjectId)]: twelve bytes in lower-case hexadecimal. *)
Definition oid_str (o : N) : string := hex_digits 24 o "".

Definition bstr (v : bval) : string :=
  match v with
  | BJson j => pystr j
  | BOid o => oid_str o
  end.

(** ** Exceptions, responses and the handler monad *)

Inductive exn :=
  | KeyError (k : string)
  | TypeError (msg : string)
  | StoreError (text : string).

(** [str(e)]; for an exception raised by a store call, the text the
    driver gave it. *)
Definition str_exn (e : exn) : string :=
  match e with
  | KeyError k => "'" +:+ k +:+ "'"
  | TypeError msg => msg
  | StoreError text => text
  end.

Inductive body_t :=
  | Json (j : json)
  | Text (s : string).

Record response := Response { body : body_t; status : Z }.

(** The calls a handler makes on the database client, in order. *)
Inductive db_call :=
  | Ping
  | CountDocuments
  | Find
  | FindOne
  | InsertOne
  | UpdateOne
  | DeleteOne.

(** For each store call a request makes, in order: the text of the
    exception the call raises, or [None] when it returns.  Calls beyond the
    end of the list return. *)
Abbreviation failures := (list (option string)).

(** A computation reads and writes the collection, may raise, and records
    its database calls.  The collection survives an exception: what was
    written before the [raise] stays written.  Its first argument tells
    which of the store calls still to come raise. *)
Definition M (A : Type) : Type :=
  list (option string) → collection → (exn + A) * collection * list db_call.

Definition ret {A} (a : A) : M A := λ _ c, (inr a, c, []).

Definition raise {A} (e : exn) : M A := λ _ c, (inl e, c, []).

Definition bind {A B} (m : M A) (f : A → M B) : M B := λ failing c,
  match m failing c with
  | (inl e, c1, l1) => (inl e, c1, l1)
  | (inr a, c1, l1) =>
      match f a (skipn (length l1) failing) c1 with
      | (r, c2, l2) => (r, c2, l1 ++ l2)
      end
  end.

(** One call on the database client: it raises when the next entry of
    [failing] says so, and then leaves the collection alone; otherwise it
    returns [run]'s result and leaves [run]'s collection. *)
Definition store_call {A} (call : db_call) (run : collection → A * collection)
  : M A := λ failing c,
  match failing with
  | Some text :: _ => (inl (StoreError text), c, [call])
  | _ => (inr (run c).1, (run c).2, [call])
  end.

Notation "'do' x <- m ; k" := (bind m (λ x, k))
  (at level 10, x name, m at level 100, k at level 200,
   format "'[v' 'do'  x  <-  m ; '/' k ']'").
Notation "'do_' m ; k" := (bind m (λ _, k))
  (at level 10, m at level 100, k at level 200,
   format "'[v' 'do_'  m ; '/' k ']'").

(** ** The document store *)

(** The filter [{"id": v}]: the field equals [v]; a [null] filter value also
    matches a document without the field. *)
Definition matches_id (v : jval) (d : document) : bool :=
  match d !! "id" with
  | Some w => bool_decide (w = BJson v)
  | None => bool_decide (v = JNull)
  end.

(** The update document [{"$set": song_data}], for a body whose keys are
    plain field names: every field of [song_data] is written, every other
    field of the document is kept. *)
Definition set_fields (song_data : payload) (d : document)
  : document :=
  (BJson <$> song_data) ∪ d.

Fixpoint update_first (f : document → bool)
    (g : document → document) (c : collection)
  : collection :=
  match c with
  | [] => []
  | d :: c' => if f d then g d :: c' else d :: update_first f g c'
  end.

Fixpoint remove_first (f : document → bool) (c : collection)
  : collection :=
  match c with
  | [] => []
  | d :: c' => if f d then c' else d :: remove_first f c'
  end.

Definition doc_oid (d : document) : N :=
  match d !! "_id" with
  | Some (BOid o) => o
  | _ => 0%N
  end.

(** An [ObjectId] that no document of the collection carries. *)
Definition fresh_oid (c : collection) : N :=
  N.succ (foldr N.max 0%N (doc_oid <$> c)).

(** What the driver does to a document before sending it: keep its [_id],
    or give it a new [ObjectId] when it has none.  Returns the identifier
    together with the document to store. *)
Definition assign_id (song_data : payload) (c : collection)
  : bval * document :=
  match song_data !! "_id" with
  | Some v => (BJson v, BJson <$> song_data)
  | None =>
      let o := BOid (fresh_oid c) in
      (o, <["_id" := o]> (BJson <$> song_data))
  end.

(** [db.songs.drop()] *)
Definition drop (c : collection) : collection := [].

(** [db.songs.insert_many(docs)] *)
Definition insert_many (docs : list payload) (c : collection)
  : collection :=
  foldl (λ acc p, acc ++ [(assign_id p acc).2]) c docs.

(** [client.admin.command('ping')] *)
Definition ping : M unit := store_call Ping (λ c, ((), c)).

(** [db.songs.count_documents({})] *)
Definition count_documents : M nat :=
  store_call CountDocuments (λ c, (length c, c)).

(** [db.songs.find({})] *)
Definition find_all : M collection := store_call Find (λ c, (c, c)).

(** [db.songs.find_one({"id": v})] *)
Definition find_one (v : jval) : M (option document) :=
  store_call FindOne (λ c, (find (matches_id v) c, c)).

(** [db.songs.insert_one(song_data)], returning [result.inserted_id] *)
Definition insert_one (song_data : payload) : M bval :=
  store_call InsertOne
    (λ c, let '(i, d) := assign_id song_data c in (i, c ++ [d])).

(** [db.songs.update_one({"id": v}, {"$set": song_data})] *)
Definition update_one (v : jval) (song_data : payload) : M unit :=
  store_call UpdateOne
    (λ c, ((), update_first (matches_id v) (set_fields song_data) c)).

(** [db.songs.delete_one({"id": v})], returning [result.deleted_count] *)
Definition delete_one (v : jval) : M nat :=
  store_call DeleteOne
    (λ c, ((if existsb (matches_id v) c then 1 else 0)%nat,
           remove_first (matches_id v) c)).

(** ** Python and Flask helpers *)

(** [d[k]] on a dict: [KeyError] when the key is missing. *)
Definition getitem {A} (d : gmap string A) (k : string) : M A :=
  match d !! k with
  | Some v => ret v
  | None => raise (KeyError k)
  end.

(** [x[k]] where [x] is what [find_one] returned: subscripting [None] is a
    [TypeError]. *)
Definition subscript (x : option document) (k : string) : M bval :=
  match x with
  | Some d => getitem d k
  | None => raise (TypeError "'NoneType' object is not subscriptable")
  end.

(** Truth value of what [find_one] returned: [None] and the empty dict are
    false. *)
Definition truthy (x : option document) : bool :=
  match x with
  | Some d => bool_decide (d ≠ ∅)
  | None => false
  end.

(** [bson.json_util.dumps] followed by [json.loads], on one value: an
    [ObjectId] becomes the object [{"$oid": "<hex>"}]. *)
Definition parse_value (v : bval) : json :=
  match v with
  | BJson j => JVal j
  | BOid o => JObj [("$oid", JVal (JStr (oid_str o)))]
  end.

(** [parse_json]: [json.loads(json_util.dumps(data))] on a document.  The
    handlers inline this composition as [json.loads(dumps(song))]. *)
Definition parse_json (d : document) : json :=
  JObj (prod_map id parse_value <$> map_to_list d).

(** Flask's JSON encoder on one value: it has no case for [ObjectId]. *)
Definition jsonify_value (v : bval) : option json :=
  match v with
  | BJson j => Some (JVal j)
  | BOid _ => None
  end.

(** [jsonify(x)] on what [find_one] returned: [None] is encoded as [null],
    and a document holding an [ObjectId] makes the encoder raise. *)
Definition jsonify_found (x : option document) : M json :=
  match x with
  | None => ret (JVal JNull)
  | Some d =>
      match mapM (λ kv, pair kv.1 <$> jsonify_value kv.2) (map_to_list d) with
      | Some fields => ret (JObj fields)
      | None => raise (TypeError "Object of type ObjectId is not JSON serializable")
      end
  end.

Definition message (key text : string) : body_t :=
  Json (JObj [(key, JVal (JStr text))]).

(** What serving one request gives: the response, the collection
    afterwards and the database calls made, for the [failures] of the
    request and the collection before. *)
Definition handler : Type :=
  list (option string) → collection → response * collection * list db_call.

(** [try: m  except Exception as e: return on_error(e)] *)
Definition try_except_as (m : M response) (on_error : exn → response) : handler :=
  λ failing c,
  match m failing c with
  | (inr r, c', l) => (r, c', l)
  | (inl e, c', l) => (on_error e, c', l)
  end.

(** The [except] block of every handler but [health]:
    [return jsonify({"error": str(e)}), 500]. *)
Definition try_except (m : M response) : handler :=
  try_except_as m (λ e, Response (message "error" (str_exn e)) 500).

(** ** Start-up *)

(** [load_data]: the parsed seed file, or [[]] when reading or parsing
    raised.  [file] is [None] in the latter case. *)
Definition load_data (file : option (list payload)) : list payload :=
  match file with
  | Some records => records
  | None => []
  end.

(** The module-level initialisation: [if songs_list: drop; insert_many]. *)
Definition startup (file : option (list payload)) (c : collection) : collection :=
  let songs_list := load_data file in
  match songs_list with
  | [] => c
  | _ :: _ => insert_many songs_list (drop c)
  end.

(** ** Endpoints *)

Definition health : handler :=
  try_except_as
    (do_ ping;
     ret (Response (message "status" "OK") 200))
    (λ e,
       Response
         (Json (JObj [("status", JVal (JStr "unhealthy"));
                      ("error", JVal (JStr (str_exn e)))]))
         500).

Definition count : handler :=
  try_except
    (do count <- count_documents;
     ret (Response (Json (JObj [("count", JVal (JInt (Z.of_nat count)))])) 200)).

Definition songs : handler :=
  try_except
    (do songs_data <- find_all;
     let songs_list := JArr (parse_json <$> songs_data) in
     ret (Response (Json (JObj [("songs", songs_list)])) 200)).

Definition get_song_by_id (id : Z) : handler :=
  try_except
    (do song <- find_one (JInt id);
     match song with
     | None => ret (Response (message "message" "song with id not found") 404)
     | Some song => ret (Response (Json (parse_json song)) 200)
     end).

Definition create_song (song_data : payload) : handler :=
  try_except
    (do id <- getitem song_data "id";
     do found <- find_one id;
     if truthy found then
       ret (Response
              (message "Message" ("song with id " +:+ pystr id +:+ " already present"))
              302)
     else
       do inserted_id <- insert_one song_data;
       ret (Response (message "inserted id" (bstr inserted_id)) 201)).

Definition update_song (id : Z) (song_data : payload) : handler :=
  try_except
    (do song <- find_one (JInt id);
     match song with
     | None => ret (Response (message "message" "song not found") 404)
     | Some _ =>
         do_ update_one (JInt id) song_data;
         do updated_song <- find_one (JInt id);
         do stored_lyrics <- subscript updated_song "lyrics";
         do lyrics <- getitem song_data "lyrics";
         let nothing_updated : M bool :=
           if py_eq stored_lyrics (BJson lyrics) then
             do stored_title <- subscript updated_song "title";
             do title <- getitem song_data "title";
             ret (py_eq stored_title (BJson title))
           else ret false in
         do same <- nothing_updated;
         if same then
           ret (Response (message "message" "song found, but nothing updated") 200)
         else
           do j <- jsonify_found updated_song;
           ret (Response (Json j) 200)
     end).

Definition delete_song (id : Z) : handler :=
  try_except
    (do deleted_count <- delete_one (JInt id);
     if bool_decide (deleted_count = 0%nat) then
       ret (Response (message "message" "song not found") 404)
     else
       ret (Response (Text "") 204)).

(** ** The service as a transition system *)

Inductive request :=
  | GetHealth
  | GetCount
  | GetSongs
  | GetSong (id : Z)
  | PostSong (song_data : payload)
  | PutSong (id : Z) (song_data : payload)
  | DeleteSong (id : Z).

Definition route (r : request) : handler :=
  match r with
  | GetHealth => health
  | GetCount => count
  | GetSongs => songs
  | GetSong id => get_song_by_id id
  | PostSong song_data => create_song song_data
  | PutSong id song_data => update_song id song_data
  | DeleteSong id => delete_song id
  end.

(** One request served on collection [c] while the store calls named by
    [failing] raise: the response, the collection afterwards and the
    database calls made. *)
Definition serve_with (failing : list (option string)) (r : request)
    (c : collection) : response * collection * list db_call :=
  route r failing c.

Definition reply_with (failing : list (option string)) (r : request)
    (c : collection) : response := (serve_with failing r c).1.1.
Definition after_with (failing : list (option string)) (r : request)
    (c : collection) : collection := (serve_with failing r c).1.2.
Definition calls_with (failing : list (option string)) (r : request)
    (c : collection) : list db_call := (serve_with failing r c).2.

(** One request served while no store call raises. *)
Definition serve (r : request) (c : collection)
  : response * collection * list db_call :=
  serve_with [] r c.

Definition reply (r : request) (c : collection) : response := (serve r c).1.1.
Definition after (r : request) (c : collection) : collection := (serve r c).1.2.
Definition calls (r : request) (c : collection) : list db_call := (serve r c).2.

Global Arguments serve_with : simpl never.
Global Arguments serve : simpl never.

(** The collections the running service can hold when its clients send
    only [allowed] requests: the one start-up leaves, and the ones requests
    lead to. *)
Inductive reachable (allowed : request → Prop) (file : option (list payload))
    (c0 : collection) : collection → Prop :=
  | reachable_startup : reachable allowed file c0 (startup file c0)
  | reachable_serve r c :
      allowed r → reachable allowed file c0 c →
      reachable allowed file c0 (after r c).

Definition any_request (r : request) : Prop := True.

(** ** Vocabulary of the specification *)

(** The application-level [id] of a document: the integer in its [id]
    field, if there is one. *)
Definition song_id (d : document) : option Z :=
  match d !! "id" with
  | Some (BJson (JInt n)) => Some n
  | _ => None
  end.

(** The application-level [id] a request body or seed record carries. *)
Definition payload_id (song_data : payload) : option Z :=
  match song_data !! "id" with
  | Some (JInt n) => Some n
  | _ => None
  end.

(** The documents of the collection whose [id] field is the integer
    [id]. *)
Definition with_id (id : Z) (c : collection) : list document :=
  filter (λ d, d !! "id" = Some (BJson (JInt id))) c.

(** No two documents of the collection share an application-level id. *)
Definition unique_ids (c : collection) : Prop := NoDup (omap song_id c).

(** A request that cannot move a document to another id: every request but
    a [PUT] whose body carries an integer [id] other than the one in its
    path. *)
Definition keeps_id (r : request) : Prop :=
  match r with
  | PutSong id song_data => ∀ n, song_data !! "id" = Some (JInt n) → n = id
  | _ => True
  end.


(** A document stores a payload when every field of the payload is a field
    of the document, with the same value. *)
Definition stored_as (song_data : payload) (d : document) : Prop :=
  ∀ k v, song_data !! k = Some v → d !! k = Some (BJson v).

(** The field [k] of a JSON object given by its list of members. *)
Definition json_field (k : string) (fields : list (string * json)) : option json :=
  (list_to_map fields : gmap string json) !! k.

(** The document carries the identifier the store knows it by. *)
Definition has_internal_id (d : document) : Prop := is_Some (d !! "_id").

(** A JSON text shows the store's internal identifier when one of its
    objects, at any depth, has an [_id] member. *)
Fixpoint exposes_id (j : json) : bool :=
  match j with
  | JVal _ => false
  | JArr l => existsb exposes_id l
  | JObj fields =>
      existsb (λ kv, bool_decide (kv.1 = "_id") || exposes_id kv.2) fields
  end.

Definition body_exposes_id (b : body_t) : bool :=
  match b with
  | Json j => exposes_id j
  | Text _ => false
  end.

(** ** Sample data *)

Definition song1 : payload :=
  {[ "id" := JInt 1; "title" := JStr "a"; "lyrics" := JStr "b" ]}.

Definition song2 : payload :=
  {[ "id" := JInt 2; "title" := JStr "c"; "lyrics" := JStr "d" ]}.

(** Same [id] as [song1]. *)
Definition song1' : payload :=
  {[ "id" := JInt 1; "title" := JStr "e"; "lyrics" := JStr "f" ]}.

Definition song3 : payload :=
  {[ "id" := JInt 3; "title" := JStr "g"; "lyrics" := JStr "h"; "year" := JInt 1999 ]}.

(** The collection after start-up with a seed file of two songs. *)
Definition seeded : collection := startup (Some [song1; song2]) [].

(** ** Connection parameters *)

(** [os.getenv(key, default)] on the process environment. *)
Definition getenv (environ : gmap string string) (key : string)
    (default : option string) : option string :=
  match environ !! key with
  | Some value => Some value
  | None => default
  end.

(** Truth value of what [os.getenv] returned: [None] and the empty string
    are false. *)
Definition is_set (x : option string) : bool :=
  match x with
  | Some s => bool_decide (s ≠ "")
  | None => false
  end.

(** The connection URL the module builds from the environment before it
    creates the client, or [None] when it calls [sys.exit(1)] because
    [MONGODB_SERVICE] is missing.  (Creating the client from the URL can
    also end the process; that is the driver's doing.) *)
Definition mongodb_url (environ : gmap string string) : option string :=
  let mongodb_service := getenv environ "MONGODB_SERVICE" None in
  let mongodb_username := getenv environ "MONGODB_USERNAME" None in
  let mongodb_password := getenv environ "MONGODB_PASSWORD" None in
  let mongodb_port := getenv environ "MONGODB_PORT" (Some "27017") in
  if negb (is_set mongodb_service) then None
  else
    let service := default "" mongodb_service in
    let port := default "" mongodb_port in
    if is_set mongodb_username && is_set mongodb_password then
      Some ("mongodb://" +:+ default "" mongodb_username +:+ ":"
            +:+ default "" mongodb_password +:+ "@" +:+ service +:+ ":" +:+ port)
    else
      Some ("mongodb://" +:+ service +:+ ":" +:+ port).

(** A [PUT] body that leaves the document under the id of the path: it has
    no [id] field, or the one of the path. *)
Definition leaves_id (id : Z) (song_data : payload) : Prop :=
  song_data !! "id" = None ∨ song_data !! "id" = Some (JInt id).

(** The three answers of [update_song] that are not a song object. *)
Definition answer_nothing_updated : response :=
  Response (message "message" "song found, but nothing updated") 200.

Definition answer_error (text : string) : response :=
  Response (message "error" text) 500.

(** A JSON text shows a document when it is an object that has, for every
    field of the document, a member of that name holding the field's value
    as [parse_json] renders it, and no other member. *)
Definition shows (d : document) (song : json) : Prop :=
  ∃ fields, song = JObj fields ∧ ∀ k, json_field k fields = parse_value <$> d !! k.

(** ** Store failures and plain bodies *)

(** The text of the exception the next store call raises, if it raises. *)
Definition raises (failing : list (option string)) : option string :=
  match failing with
  | Some text :: _ => Some text
  | _ => None
  end.

(** The answer of [health] when its ping raises. *)
Definition answer_unhealthy (text : string) : response :=
  Response
    (Json (JObj [("status", JVal (JStr "unhealthy")); ("error", JVal (JStr text))]))
    500.

(** A key that [$set] reads as the name of a top-level field it may write:
    not empty, no [.] in it, no leading [$], and not [_id]. *)
Definition plain_field_name (k : string) : bool :=
  match k with
  | EmptyString => false
  | String a _ =>
      negb (Ascii.eqb a "$")
      && forallb (λ b, negb (Ascii.eqb b ".")) (String.list_ascii_of_string k)
      && negb (String.eqb k "_id")
  end.

(** A body all of whose keys are plain field names. *)
Definition plain_fields (song_data : payload) : Prop :=
  map_Forall (λ k _, plain_field_name k = true) song_data.

(** Closes a decidable goal about concrete data by evaluating its decision
    procedure. *)
Ltac by_evaluation :=
  lazymatch goal with
  | |- ?P => refine (@bool_decide_unpack P _ _); vm_compute; exact I
  end.

(** ** Lemmas on the store *)

Section store.
Implicit Types (c : collection) (d : document) (f : document → bool).

Lemma matches_id_value v d :
  v ≠ JNull → matches_id v d = true ↔ d !! "id" = Some (BJson v).
Proof.
  intros Hv. unfold matches_id. destruct (d !! "id") as [w|].
  - rewrite bool_decide_eq_true. split; congruence.
  - rewrite bool_decide_eq_true. split; [done | discriminate].
Qed.

Lemma matches_id_int n d :
  matches_id (JInt n) d = true ↔ d !! "id" = Some (BJson (JInt n)).
Proof. by apply matches_id_value. Qed.

Lemma matches_id_song_id n d : matches_id (JInt n) d = true ↔ song_id d = Some n.
Proof.
  rewrite matches_id_int. unfold song_id.
  destruct (d !! "id") as [[[]|]|]; split; congruence.
Qed.

Lemma find_None f c : find f c = None ↔ ∀ d, d ∈ c → f d = false.
Proof.
  induction c as [|d0 c IH]; simpl.
  - split; [intros _ d Hd; inversion Hd | done].
  - destruct (f d0) eqn:Hf.
    + split; [done | intros H; specialize (H d0 (list_elem_of_here _ _)); congruence].
    + rewrite IH. split.
      * intros H d Hd. apply elem_of_cons in Hd as [-> | Hd]; auto.
      * intros H d Hd. apply H. by apply list_elem_of_further.
Qed.

(** [find] returns the first match. *)
Lemma find_Some f c d :
  find f c = Some d ↔
  ∃ i, c !! i = Some d ∧ f d = true ∧
       ∀ j d', (j < i)%nat → c !! j = Some d' → f d' = false.
Proof.
  revert d. induction c as [|d0 c IH]; intros d; simpl.
  - split; [done | intros (i & Hi & _); by destruct i].
  - destruct (f d0) eqn:Hf.
    + split.
      * intros [= ->]. exists 0%nat. split_and!; [done | done | intros; lia].
      * intros ([|i] & Hi & Hd & Hlt).
        -- by simplify_eq/=.
        -- specialize (Hlt 0%nat d0). simpl in Hlt.
           rewrite Hlt in Hf; [done | lia | done].
    + rewrite IH. split.
      * intros (i & Hi & Hd & Hlt). exists (S i). split_and!; [done | done |].
        intros [|j] d' Hj Hd'; simplify_eq/=; [done |].
        apply (Hlt j); [lia | done].
      * intros ([|i] & Hi & Hd & Hlt); simplify_eq/=; [congruence |].
        exists i. split_and!; [done | done |].
        intros j d' Hj Hd'. apply (Hlt (S j)); [lia | done].
Qed.

Lemma find_is_Some f c d : d ∈ c → f d = true → is_Some (find f c).
Proof.
  intros Hd Hf. destruct (find f c) eqn:E; [by eexists |].
  rewrite find_None in E. rewrite (E d Hd) in Hf. done.
Qed.

Lemma existsb_find f c : existsb f c = bool_decide (is_Some (find f c)).
Proof.
  induction c as [|d c IH]; simpl; [done |].
  by destruct (f d).
Qed.

(** [update_one] rewrites the document [find_one] would return, in
    place. *)
Lemma update_first_insert f g c i d :
  c !! i = Some d → f d = true →
  (∀ j d', (j < i)%nat → c !! j = Some d' → f d' = false) →
  update_first f g c = <[i := g d]> c.
Proof.
  revert i. induction c as [|d0 c IH]; intros i Hi Hd Hlt; [done |].
  destruct i as [|i]; simplify_eq/=.
  - by rewrite Hd.
  - rewrite (Hlt 0%nat d0); [| lia | done]. f_equal.
    apply IH; [done | done |].
    intros j d' Hj Hd'. apply (Hlt (S j)); [lia | done].
Qed.

Lemma update_first_None f g c : find f c = None → update_first f g c = c.
Proof.
  induction c as [|d0 c IH]; simpl; [done |].
  destruct (f d0); [done |]. intros H. by rewrite IH.
Qed.

(** [delete_one] removes the document [find_one] would return. *)
Lemma remove_first_delete f c i d :
  c !! i = Some d → f d = true →
  (∀ j d', (j < i)%nat → c !! j = Some d' → f d' = false) →
  remove_first f c = delete i c.
Proof.
  revert i. induction c as [|d0 c IH]; intros i Hi Hd Hlt; [done |].
  destruct i as [|i]; simplify_eq/=.
  - by rewrite Hd.
  - rewrite (Hlt 0%nat d0); [| lia | done]. f_equal.
    apply IH; [done | done |].
    intros j d' Hj Hd'. apply (Hlt (S j)); [lia | done].
Qed.

Lemma remove_first_None f c : find f c = None → remove_first f c = c.
Proof.
  induction c as [|d0 c IH]; simpl; [done |].
  destruct (f d0); [done |]. intros H. by rewrite IH.
Qed.

End store.

Section identifiers.
Implicit Types (c : collection) (d : document) (f : document → bool).

Lemma find_app f c1 c2 :
  find f (c1 ++ c2) = match find f c1 with Some d => Some d | None => find f c2 end.
Proof. induction c1 as [|d c1 IH]; simpl; [done |]. by destruct (f d). Qed.

Lemma doc_oid_le_max c d : d ∈ c → (doc_oid d ≤ foldr N.max 0 (doc_oid <$> c))%N.
Proof.
  induction c as [|d0 c IH]; intros Hd; [inversion Hd |].
  rewrite fmap_cons. simpl foldr.
  apply elem_of_cons in Hd as [-> | Hd]; [lia |].
  specialize (IH Hd). lia.
Qed.

(** The identifier [assign_id] generates is new to the collection. *)
Lemma fresh_oid_unused c d : d ∈ c → d !! "_id" ≠ Some (BOid (fresh_oid c)).
Proof.
  intros Hd Heq. pose proof (doc_oid_le_max c d Hd) as Hle.
  assert (doc_oid d = fresh_oid c) as Hoid by (unfold doc_oid; by rewrite Heq).
  rewrite Hoid in Hle. unfold fresh_oid in Hle. lia.
Qed.

Lemma assign_id_fields (song_data : payload) c k v :
  song_data !! k = Some v → (assign_id song_data c).2 !! k = Some (BJson v).
Proof.
  intros Hk. unfold assign_id. destruct (song_data !! "_id") eqn:Hid; simpl.
  - by rewrite lookup_fmap, Hk.
  - rewrite lookup_insert_ne; [| congruence]. by rewrite lookup_fmap, Hk.
Qed.

Lemma assign_id_other (song_data : payload) c k :
  k ≠ "_id" → song_data !! k = None → (assign_id song_data c).2 !! k = None.
Proof.
  intros Hne Hk. unfold assign_id. destruct (song_data !! "_id") eqn:Hid; simpl.
  - by rewrite lookup_fmap, Hk.
  - rewrite lookup_insert_ne; [| done]. by rewrite lookup_fmap, Hk.
Qed.

Lemma assign_id_id (song_data : payload) c :
  (assign_id song_data c).2 !! "_id" = Some (assign_id song_data c).1.
Proof.
  unfold assign_id. destruct (song_data !! "_id") eqn:Hid; simpl.
  - by rewrite lookup_fmap, Hid.
  - by rewrite lookup_insert_eq.
Qed.

Lemma assign_id_song_field (song_data : payload) c k :
  k ≠ "_id" → (assign_id song_data c).2 !! k = BJson <$> song_data !! k.
Proof.
  intros Hne. destruct (song_data !! k) as [v|] eqn:Hk; simpl.
  - by apply assign_id_fields.
  - by apply assign_id_other.
Qed.

Lemma json_field_parse_json k d :
  json_field k (prod_map id parse_value <$> map_to_list d) = parse_value <$> d !! k.
Proof.
  unfold json_field.
  by rewrite list_to_map_fmap, list_to_map_to_list, lookup_fmap.
Qed.

End identifiers.

(** ** What each handler computes *)

Section handlers.
Implicit Types (c : collection) (d : document) (song_data : payload).

Lemma serve_get_health c :
  serve GetHealth c = (Response (message "status" "OK") 200, c, [Ping]).
Proof. reflexivity. Qed.

Lemma serve_get_count c :
  serve GetCount c =
  (Response (Json (JObj [("count", JVal (JInt (Z.of_nat (length c))))])) 200,
   c, [CountDocuments]).
Proof. reflexivity. Qed.

Lemma serve_get_songs c :
  serve GetSongs c =
  (Response (Json (JObj [("songs", JArr (parse_json <$> c))])) 200, c, [Find]).
Proof. reflexivity. Qed.

Lemma serve_get_song id c :
  serve (GetSong id) c =
  (match find (matches_id (JInt id)) c with
   | None => Response (message "message" "song with id not found") 404
   | Some song => Response (Json (parse_json song)) 200
   end, c, [FindOne]).
Proof.
  unfold serve, serve_with, route, get_song_by_id, try_except, try_except_as, bind, find_one, store_call.
  by destruct (find _ c).
Qed.

Lemma serve_post_song song_data c :
  serve (PostSong song_data) c =
  match song_data !! "id" with
  | None => (Response (message "error" "'id'") 500, c, [])
  | Some id =>
      if truthy (find (matches_id id) c) then
        (Response
           (message "Message" ("song with id " +:+ pystr id +:+ " already present"))
           302, c, [FindOne])
      else
        (Response (message "inserted id" (bstr (assign_id song_data c).1)) 201,
         c ++ [(assign_id song_data c).2], [FindOne; InsertOne])
  end.
Proof.
  unfold serve, serve_with, route, create_song, try_except, try_except_as.
  unfold bind, getitem, ret, raise, find_one, insert_one, store_call.
  destruct (song_data !! "id") as [id|]; simpl; [| done].
  destruct (truthy _); simpl; [done |].
  by destruct (assign_id song_data c).
Qed.

Lemma serve_delete_song id c :
  serve (DeleteSong id) c =
  match find (matches_id (JInt id)) c with
  | None => (Response (message "message" "song not found") 404, c, [DeleteOne])
  | Some _ =>
      (Response (Text "") 204, remove_first (matches_id (JInt id)) c, [DeleteOne])
  end.
Proof.
  unfold serve, serve_with, route, delete_song, try_except, try_except_as, bind, delete_one, store_call.
  rewrite existsb_find.
  destruct (find _ c) eqn:E; simpl; [done |].
  by rewrite remove_first_None.
Qed.

(** A document found under an id other than [null] is never the empty
    dict. *)
Lemma truthy_find v c :
  v ≠ JNull →
  truthy (find (matches_id v) c) = bool_decide (is_Some (find (matches_id v) c)).
Proof.
  intros Hv. destruct (find _ c) as [d|] eqn:E; simpl; [| done].
  apply find_Some in E as (i & _ & Hd & _). apply matches_id_value in Hd; [| done].
  apply bool_decide_eq_true. intros ->. by rewrite lookup_empty in Hd.
Qed.

Lemma truthy_find_int n c :
  truthy (find (matches_id (JInt n)) c) =
  bool_decide (is_Some (find (matches_id (JInt n)) c)).
Proof. by apply truthy_find. Qed.

End handlers.

Section startup.
Implicit Types (c : collection) (docs : list payload).

Lemma insert_many_cons docs song_data c :
  insert_many (song_data :: docs) c =
  insert_many docs (c ++ [(assign_id song_data c).2]).
Proof. reflexivity. Qed.

(** [insert_many] appends one document per record, in order. *)
Lemma insert_many_appends docs c :
  ∃ ds, insert_many docs c = c ++ ds ∧ Forall2 stored_as docs ds.
Proof.
  revert c. induction docs as [|song_data docs IH]; intros c.
  - exists []. split; [by rewrite app_nil_r | constructor].
  - destruct (IH (c ++ [(assign_id song_data c).2])) as (ds & Hds & Hall).
    exists ((assign_id song_data c).2 :: ds). split.
    + rewrite insert_many_cons, Hds. by rewrite <- app_assoc.
    + constructor; [| done]. intros k v Hk. by apply assign_id_fields.
Qed.

Lemma startup_seeded file c :
  load_data file ≠ [] → startup file c = insert_many (load_data file) [].
Proof. unfold startup. by destruct (load_data file). Qed.

Lemma startup_unseeded file c : load_data file = [] → startup file c = c.
Proof. unfold startup. by intros ->. Qed.

End startup.

Lemma get_song_by_id_absent (c : collection) (id : Z) :
  (∀ d, d ∈ c → d !! "id" ≠ Some (BJson (JInt id))) →
  reply (GetSong id) c = Response (message "message" "song with id not found") 404.
Proof.
  intros Habsent. unfold reply. rewrite serve_get_song. simpl.
  destruct (find _ c) as [d|] eqn:E; [| done].
  apply find_Some in E as (i & Hi & Hd & _). apply matches_id_int in Hd.
  destruct (Habsent d); [| done]. by eapply list_elem_of_lookup_2.
Qed.

Section put.
Implicit Types (c : collection) (d : document) (song_data : payload).

Lemma py_eq_refl v : py_eq v v = true.
Proof. destruct v as [[| | |]|]; simpl; by rewrite ?bool_decide_eq_true_2. Qed.

(** Whatever [update_song] answers, the collection it leaves is the one
    its [update_one] call wrote. *)
Lemma after_put_song id song_data c :
  after (PutSong id song_data) c =
  update_first (matches_id (JInt id)) (set_fields song_data) c.
Proof.
  unfold after, serve, serve_with, route, update_song, try_except, try_except_as.
  unfold bind, find_one, update_one, subscript, getitem, jsonify_found, ret, raise, store_call.
  destruct (find _ c) eqn:E; simpl.
  - repeat (case_match; simplify_eq/=); done.
  - by rewrite update_first_None.
Qed.

Lemma calls_put_song id song_data c :
  calls (PutSong id song_data) c =
  match find (matches_id (JInt id)) c with
  | None => [FindOne]
  | Some _ => [FindOne; UpdateOne; FindOne]
  end.
Proof.
  unfold calls, serve, serve_with, route, update_song, try_except, try_except_as.
  unfold bind, find_one, update_one, subscript, getitem, jsonify_found, ret, raise, store_call.
  destruct (find _ c) eqn:E; simpl; [| done].
  repeat (case_match; simplify_eq/=); done.
Qed.

(** The answers of [update_song]: only the one built by [jsonify] from
    the document read back can have an [_id] member, and it has status
    200. *)
Lemma reply_put_song_exposes id song_data c :
  body_exposes_id (body (reply (PutSong id song_data) c)) = true →
  status (reply (PutSong id song_data) c) = 200.
Proof.
  unfold reply, serve, serve_with, route, update_song, try_except, try_except_as.
  unfold bind, find_one, update_one, subscript, getitem, jsonify_found, ret, raise, store_call.
  destruct (find _ c) eqn:E; simpl; [| done].
  repeat (case_match; simplify_eq/=); done.
Qed.

Lemma reply_put_song_not_found id song_data c :
  find (matches_id (JInt id)) c = None →
  reply (PutSong id song_data) c = Response (message "message" "song not found") 404.
Proof.
  intros E. unfold reply, serve, serve_with, route, update_song, try_except, try_except_as, bind, find_one, store_call.
  by rewrite E.
Qed.

Lemma set_fields_written song_data d k v :
  song_data !! k = Some v → set_fields song_data d !! k = Some (BJson v).
Proof.
  intros Hk. unfold set_fields. apply lookup_union_Some_l.
  by rewrite lookup_fmap, Hk.
Qed.

Lemma set_fields_kept song_data d k :
  song_data !! k = None → set_fields song_data d !! k = d !! k.
Proof.
  intros Hk. unfold set_fields. apply lookup_union_r.
  by rewrite lookup_fmap, Hk.
Qed.

(** The second [find_one] of [update_song] reads back the document just
    written, as long as the write left its [id] alone. *)
Lemma find_after_update id song_data c d :
  find (matches_id (JInt id)) c = Some d →
  (∀ v, song_data !! "id" = Some v → v = JInt id) →
  find (matches_id (JInt id))
       (update_first (matches_id (JInt id)) (set_fields song_data) c)
  = Some (set_fields song_data d).
Proof.
  intros Hfind Hkeeps. apply find_Some in Hfind as (i & Hi & Hd & Hfirst).
  rewrite (update_first_insert _ _ c i d) by done.
  apply find_Some. exists i. split_and!.
  - apply list_lookup_insert_eq. by eapply lookup_lt_Some.
  - apply matches_id_int. apply matches_id_int in Hd.
    destruct (song_data !! "id") as [v|] eqn:Hv.
    + rewrite (set_fields_written _ _ _ _ Hv). by rewrite (Hkeeps v).
    + by rewrite set_fields_kept.
  - intros j d' Hj Hd'. rewrite list_lookup_insert_ne in Hd' by lia.
    by apply (Hfirst j).
Qed.

(** Whenever the body carries a title and lyrics and leaves the [id]
    alone, the comparison of [update_song] compares the body with itself:
    the answer is "nothing updated", whatever was stored before. *)
Lemma update_song_reports_nothing_updated id song_data c d title lyrics :
  find (matches_id (JInt id)) c = Some d →
  (∀ v, song_data !! "id" = Some v → v = JInt id) →
  song_data !! "title" = Some title →
  song_data !! "lyrics" = Some lyrics →
  reply (PutSong id song_data) c =
  Response (message "message" "song found, but nothing updated") 200.
Proof.
  intros Hfind Hkeeps Htitle Hlyrics.
  pose proof (find_after_update id song_data c d Hfind Hkeeps) as Hback.
  unfold reply, serve, serve_with, route, update_song, try_except, try_except_as.
  unfold bind, find_one, update_one, store_call. rewrite Hfind. simpl. rewrite Hback.
  unfold subscript, getitem.
  rewrite (set_fields_written _ _ _ _ Hlyrics), (set_fields_written _ _ _ _ Htitle).
  rewrite Hlyrics, Htitle. unfold ret. cbn beta iota.
  rewrite py_eq_refl. cbn beta iota. by rewrite py_eq_refl.
Qed.

End put.

Section with_id.
Implicit Types (c : collection) (d : document).

Lemma with_id_cons id d c :
  with_id id (d :: c) =
  if matches_id (JInt id) d then d :: with_id id c else with_id id c.
Proof.
  unfold with_id. rewrite filter_cons.
  destruct (matches_id (JInt id) d) eqn:E.
  - apply matches_id_int in E. by rewrite decide_True.
  - rewrite decide_False; [done |]. intros Hid.
    apply matches_id_int in Hid. congruence.
Qed.

Lemma with_id_nil id c :
  (∀ d, d ∈ c → d !! "id" ≠ Some (BJson (JInt id))) → with_id id c = [].
Proof.
  intros Habsent. induction c as [|d c IH]; [done |].
  rewrite with_id_cons.
  destruct (matches_id (JInt id) d) eqn:E.
  - apply matches_id_int in E. destruct (Habsent d); [| done]. apply list_elem_of_here.
  - apply IH. intros d' Hd'. apply Habsent. by apply list_elem_of_further.
Qed.

(** Once the only document with the id is removed, none is left. *)
Lemma with_id_remove_first id c :
  length (with_id id c) = 1%nat →
  with_id id (remove_first (matches_id (JInt id)) c) = [].
Proof.
  induction c as [|d c IH]; [done |].
  rewrite with_id_cons. simpl.
  destruct (matches_id (JInt id) d) eqn:E.
  - simpl. intros [= Hlen]. by apply nil_length_inv.
  - intros Hlen. rewrite with_id_cons, E. by apply IH.
Qed.
End with_id.

Section exposure.
Implicit Types (c : collection) (d : document).

Lemma exposes_id_obj fields :
  exposes_id (JObj fields) =
  existsb (λ kv, bool_decide (kv.1 = "_id") || exposes_id kv.2) fields.
Proof. reflexivity. Qed.

Lemma exposes_id_arr l : exposes_id (JArr l) = existsb exposes_id l.
Proof. reflexivity. Qed.

Lemma exposes_id_parse_json d :
  is_Some (d !! "_id") → exposes_id (parse_json d) = true.
Proof.
  intros [v Hv]. unfold parse_json. rewrite exposes_id_obj.
  apply existsb_exists. exists ("_id", parse_value v). split; [| done].
  apply list_elem_of_In, list_elem_of_fmap. exists ("_id", v). split; [done |].
  by apply elem_of_map_to_list.
Qed.

Lemma exposes_id_songs c :
  (∃ d, d ∈ c ∧ is_Some (d !! "_id")) →
  exposes_id (JObj [("songs", JArr (parse_json <$> c))]) = true.
Proof.
  intros (d & Hd & Hid).
  change (exposes_id (JObj [("songs", JArr (parse_json <$> c))]))
    with (false || existsb exposes_id (parse_json <$> c) || false).
  rewrite orb_false_r, orb_false_l.
  apply existsb_exists. exists (parse_json d). split.
  - apply list_elem_of_In, list_elem_of_fmap. by exists d.
  - by apply exposes_id_parse_json.
Qed.
Lemma shows_parse_json d : shows d (parse_json d).
Proof.
  exists (prod_map (λ k, k) parse_value <$> map_to_list d). split; [done |].
  intros k. apply json_field_parse_json.
Qed.

Lemma shows_collection c : Forall2 shows c (parse_json <$> c).
Proof.
  induction c as [|d c IH]; [constructor |].
  rewrite fmap_cons. constructor; [apply shows_parse_json | done].
Qed.

End exposure.

Section internal_id.
Implicit Types (c : collection) (d : document) (song_data : payload).

Lemma has_internal_id_assign_id song_data c :
  has_internal_id (assign_id song_data c).2.
Proof. unfold has_internal_id. rewrite assign_id_id. by eexists. Qed.

Lemma has_internal_id_set_fields song_data d :
  has_internal_id d → has_internal_id (set_fields song_data d).
Proof.
  unfold has_internal_id. intros [v Hv].
  destruct (song_data !! "_id") as [w|] eqn:Hw.
  - rewrite (set_fields_written _ _ _ _ Hw). by eexists.
  - rewrite set_fields_kept by done. by eexists.
Qed.

Lemma has_internal_id_insert_many (docs : list payload) c :
  Forall has_internal_id c → Forall has_internal_id (insert_many docs c).
Proof.
  revert c. induction docs as [|song_data docs IH]; intros c Hc; [done |].
  rewrite insert_many_cons. apply IH. apply Forall_app. split; [done |].
  apply Forall_singleton, has_internal_id_assign_id.
Qed.

Lemma has_internal_id_update_first f song_data c :
  Forall has_internal_id c →
  Forall has_internal_id (update_first f (set_fields song_data) c).
Proof.
  induction 1 as [|d c Hd Hc IH]; simpl; [done |].
  destruct (f d); constructor; auto using has_internal_id_set_fields.
Qed.

Lemma has_internal_id_remove_first f c :
  Forall has_internal_id c → Forall has_internal_id (remove_first f c).
Proof.
  induction 1 as [|d c Hd Hc IH]; simpl; [done |].
  destruct (f d); [done | by constructor].
Qed.

Lemma has_internal_id_after r c :
  Forall has_internal_id c → Forall has_internal_id (after r c).
Proof.
  intros Hc. destruct r as [| | |id|song_data|id song_data|id].
  - done.
  - done.
  - done.
  - unfold after. by rewrite serve_get_song.
  - unfold after. rewrite serve_post_song.
    destruct (song_data !! "id"); [| done]. destruct (truthy _); [done |].
    simpl. apply Forall_app. split; [done |].
    apply Forall_singleton, has_internal_id_assign_id.
  - rewrite after_put_song. by apply has_internal_id_update_first.
  - unfold after. rewrite serve_delete_song. destruct (find _ c); [| done].
    by apply has_internal_id_remove_first.
Qed.

(** Once start-up has seeded the collection, every document the service
    ever holds has an [_id]. *)
Lemma reachable_has_internal_id allowed file c0 c :
  load_data file ≠ [] →
  reachable allowed file c0 c →
  Forall has_internal_id c.
Proof.
  intros Hseed Hreach. induction Hreach as [|r c Hr Hreach IH].
  - rewrite startup_seeded by done. by apply has_internal_id_insert_many.
  - by apply has_internal_id_after.
Qed.

(** Hence every song object [GET /song/{id}] returns from such a
    collection shows its [_id]. *)
Lemma reachable_get_song_exposes_id allowed file c0 c id :
  load_data file ≠ [] →
  reachable allowed file c0 c →
  status (reply (GetSong id) c) = 200 →
  body_exposes_id (body (reply (GetSong id) c)) = true.
Proof.
  intros Hseed Hreach. unfold reply. rewrite serve_get_song. simpl.
  destruct (find _ c) as [d|] eqn:E; [| done]. intros _. simpl.
  apply exposes_id_parse_json.
  apply find_Some in E as (i & Hi & _).
  pose proof (reachable_has_internal_id _ _ _ _ Hseed Hreach) as Hall.
  rewrite Forall_forall in Hall. apply Hall. by eapply list_elem_of_lookup_2.
Qed.

End internal_id.

Section uniqueness.
Implicit Types (c : collection) (d : document) (song_data : payload).

Lemma song_id_assign_id song_data c :
  song_id (assign_id song_data c).2 = payload_id song_data.
Proof.
  unfold song_id, payload_id.
  rewrite assign_id_song_field by done.
  by destruct (song_data !! "id") as [[]|].
Qed.

Lemma song_id_set_fields id song_data d :
  (∀ n, song_data !! "id" = Some (JInt n) → n = id) →
  song_id d = Some id →
  song_id (set_fields song_data d) = song_id d
  ∨ song_id (set_fields song_data d) = None.
Proof.
  intros Hkeeps Hd. unfold song_id at 1 3.
  destruct (song_data !! "id") as [v|] eqn:Hv.
  - rewrite (set_fields_written _ _ _ _ Hv).
    destruct v as [| |n|]; auto.
    left. rewrite (Hkeeps n eq_refl). by rewrite Hd.
  - rewrite set_fields_kept by done. by left.
Qed.

Lemma omap_song_id_update_first f g c :
  (∀ d, f d = true → song_id (g d) = song_id d ∨ song_id (g d) = None) →
  omap song_id (update_first f g c) `sublist_of` omap song_id c.
Proof.
  intros Hg. induction c as [|d c IH]; simpl; [done |].
  destruct (f d) eqn:Hf; simpl.
  - destruct (Hg d Hf) as [-> | ->]; [done |].
    destruct (song_id d); [by apply sublist_cons | done].
  - destruct (song_id d); [by apply sublist_skip | done].
Qed.

Lemma omap_song_id_remove_first f c :
  omap song_id (remove_first f c) `sublist_of` omap song_id c.
Proof.
  induction c as [|d c IH]; simpl; [done |].
  destruct (f d); simpl.
  - destruct (song_id d); [by apply sublist_cons | done].
  - destruct (song_id d); [by apply sublist_skip | done].
Qed.

Lemma omap_song_id_insert_many (docs : list payload) c :
  omap song_id (insert_many docs c) = omap song_id c ++ omap payload_id docs.
Proof.
  revert c. induction docs as [|song_data docs IH]; intros c.
  - by rewrite app_nil_r.
  - rewrite insert_many_cons, IH, omap_app, <- app_assoc. f_equal.
    simpl. rewrite song_id_assign_id. by destruct (payload_id song_data).
Qed.

(** Seeding copies the ids of the seed file as they are. *)
Lemma startup_unique_ids file c0 :
  load_data file ≠ [] →
  unique_ids (startup file c0) ↔ NoDup (omap payload_id (load_data file)).
Proof.
  intros Hseed. unfold unique_ids.
  by rewrite startup_seeded, omap_song_id_insert_many.
Qed.

Lemma unique_ids_after_post song_data c :
  unique_ids c → unique_ids (after (PostSong song_data) c).
Proof.
  intros Huniq. unfold after. rewrite serve_post_song.
  destruct (song_data !! "id") as [v|] eqn:Hv; [| done].
  destruct (truthy _) eqn:Hfound; [done |]. simpl.
  unfold unique_ids. rewrite omap_app. simpl. rewrite song_id_assign_id.
  unfold payload_id. rewrite Hv.
  destruct v as [| |n|]; try by rewrite app_nil_r.
  apply NoDup_app. split_and!; [done | | apply NoDup_singleton].
  intros m Hm ->%list_elem_of_singleton.
  apply list_elem_of_omap in Hm as (d & Hd & Hid).
  rewrite truthy_find_int in Hfound. apply bool_decide_eq_false in Hfound.
  apply Hfound. apply (find_is_Some _ c d); [done |].
  by apply matches_id_song_id.
Qed.

Lemma unique_ids_after_put id song_data c :
  (∀ n, song_data !! "id" = Some (JInt n) → n = id) →
  unique_ids c → unique_ids (after (PutSong id song_data) c).
Proof.
  intros Hkeeps Huniq. rewrite after_put_song. unfold unique_ids.
  apply (sublist_NoDup _ (omap song_id c)); [exact Huniq |].
  apply omap_song_id_update_first. intros d Hd.
  apply (song_id_set_fields id); [done |]. by apply matches_id_song_id.
Qed.

Lemma unique_ids_after_delete id c :
  unique_ids c → unique_ids (after (DeleteSong id) c).
Proof.
  intros Huniq. unfold after. rewrite serve_delete_song.
  destruct (find _ c); [| done]. simpl.
  apply (sublist_NoDup _ (omap song_id c)); [exact Huniq |].
  apply omap_song_id_remove_first.
Qed.

Lemma unique_ids_after r c :
  keeps_id r → unique_ids c → unique_ids (after r c).
Proof.
  destruct r as [| | |id|song_data|id song_data|id]; intros Hkeeps Huniq.
  - done.
  - done.
  - done.
  - unfold after. by rewrite serve_get_song.
  - by apply unique_ids_after_post.
  - by apply unique_ids_after_put.
  - by apply unique_ids_after_delete.
Qed.
End uniqueness.

Section failures.
Implicit Types (c : collection) (d : document) (song_data : payload).
Implicit Types (failing : list (option string)).

Lemma serve_with_get_health failing c :
  serve_with failing GetHealth c =
  (match raises failing with
   | Some text => answer_unhealthy text
   | None => Response (message "status" "OK") 200
   end, c, [Ping]).
Proof. by destruct failing as [|[text|] failing]. Qed.

Lemma serve_with_get_count failing c :
  serve_with failing GetCount c =
  (match raises failing with
   | Some text => answer_error text
   | None =>
       Response (Json (JObj [("count", JVal (JInt (Z.of_nat (length c))))])) 200
   end, c, [CountDocuments]).
Proof. by destruct failing as [|[text|] failing]. Qed.

Lemma serve_with_get_songs failing c :
  serve_with failing GetSongs c =
  (match raises failing with
   | Some text => answer_error text
   | None => Response (Json (JObj [("songs", JArr (parse_json <$> c))])) 200
   end, c, [Find]).
Proof. by destruct failing as [|[text|] failing]. Qed.

Lemma serve_with_get_song failing id c :
  serve_with failing (GetSong id) c =
  (match raises failing with
   | Some text => answer_error text
   | None => reply (GetSong id) c
   end, c, [FindOne]).
Proof.
  unfold reply. rewrite serve_get_song.
  destruct failing as [|[text|] failing]; [| done |].
  - unfold serve_with, route, get_song_by_id, try_except, try_except_as.
    unfold bind, find_one, store_call. simpl. by destruct (find _ c).
  - unfold serve_with, route, get_song_by_id, try_except, try_except_as.
    unfold bind, find_one, store_call. simpl. by destruct (find _ c).
Qed.

Lemma serve_with_delete_song failing id c :
  serve_with failing (DeleteSong id) c =
  match raises failing with
  | Some text => (answer_error text, c, [DeleteOne])
  | None => serve (DeleteSong id) c
  end.
Proof.
  destruct failing as [|[text|] failing]; [done | done |].
  unfold serve, serve_with, route, delete_song, try_except, try_except_as.
  unfold bind, delete_one, store_call. simpl.
  by destruct (bool_decide _).
Qed.

Lemma serve_with_post_song failing song_data c :
  serve_with failing (PostSong song_data) c =
  match song_data !! "id" with
  | None => (answer_error "'id'", c, [])
  | Some id =>
      match raises failing with
      | Some text => (answer_error text, c, [FindOne])
      | None =>
          if truthy (find (matches_id id) c) then
            serve (PostSong song_data) c
          else
            match raises (skipn 1 failing) with
            | Some text => (answer_error text, c, [FindOne; InsertOne])
            | None => serve (PostSong song_data) c
            end
      end
  end.
Proof.
  rewrite serve_post_song.
  unfold serve_with, route, create_song, try_except, try_except_as.
  unfold bind, getitem, ret, raise, find_one, insert_one, store_call.
  destruct (song_data !! "id") as [id|]; simpl; [| done].
  destruct failing as [|[text|] failing]; simpl; [| done |].
  - destruct (truthy _); simpl; [done |]. by destruct (assign_id song_data c).
  - destruct (truthy _); simpl; [done |].
    destruct failing as [|[text|] failing]; simpl; [| done |];
      by destruct (assign_id song_data c).
Qed.

(** [update_song] when store calls raise: the run is the one without
    failures, or it ends in 500 at the first lookup, at the write (nothing
    written), or at the second lookup (the write stays). *)
Lemma serve_with_put_song failing id song_data c :
  serve_with failing (PutSong id song_data) c = serve (PutSong id song_data) c
  ∨ (∃ text,
       serve_with failing (PutSong id song_data) c
       = (answer_error text, c, [FindOne]))
  ∨ (∃ text,
       serve_with failing (PutSong id song_data) c
       = (answer_error text, c, [FindOne; UpdateOne]))
  ∨ (∃ text,
       serve_with failing (PutSong id song_data) c
       = (answer_error text, after (PutSong id song_data) c,
          [FindOne; UpdateOne; FindOne])).
Proof.
  rewrite after_put_song.
  unfold serve, serve_with, route, update_song, try_except, try_except_as.
  unfold bind, find_one, update_one, store_call.
  unfold subscript, getitem, jsonify_found, ret, raise.
  destruct failing as [|[t1|] failing]; simpl;
    [by left | right; left; by eexists |].
  destruct (find (matches_id (JInt id)) c) as [d|] eqn:Hfind; simpl; [| by left].
  destruct failing as [|[t2|] failing]; simpl;
    [by left | right; right; left; by eexists |].
  destruct failing as [|[t3|] failing]; simpl;
    [by left | right; right; right; by eexists |].
  left.
  destruct (find (matches_id (JInt id)) (update_first _ _ c)) as [u|];
    simpl; [| done].
  destruct (u !! "lyrics"); simpl; [| done].
  destruct (song_data !! "lyrics"); simpl; [| done].
  destruct (py_eq _ _); simpl.
  - destruct (u !! "title"); simpl; [| done].
    destruct (song_data !! "title"); simpl; [| done].
    destruct (py_eq _ _); simpl; [done |].
    by destruct (mapM _ _).
  - by destruct (mapM _ _).
Qed.

(** A store call that raises adds no collection to the ones the service
    can hold: a request leaves the collection it found, or the one its run
    without failures leaves. *)
Lemma after_with_cases failing r c :
  after_with failing r c = c ∨ after_with failing r c = after r c.
Proof.
  unfold after_with, after.
  destruct r as [| | |id|song_data|id song_data|id].
  - rewrite serve_with_get_health. by left.
  - rewrite serve_with_get_count. by left.
  - rewrite serve_with_get_songs. by left.
  - rewrite serve_with_get_song. by left.
  - rewrite serve_with_post_song.
    destruct (song_data !! "id"); [| by left].
    destruct (raises failing); [by left |].
    destruct (truthy _); [by right |].
    destruct (raises _); [by left | by right].
  - destruct (serve_with_put_song failing id song_data c)
      as [-> | [(text & ->) | [(text & ->) | (text & ->)]]]; auto.
  - rewrite serve_with_delete_song.
    destruct (raises failing); [by left | by right].
Qed.

Lemma reachable_serve_with allowed file c0 failing r c :
  allowed r → reachable allowed file c0 c →
  reachable allowed file c0 (after_with failing r c).
Proof.
  intros Hr Hc. destruct (after_with_cases failing r c) as [-> | ->]; [done |].
  by apply reachable_serve.
Qed.

End failures.

(** * The claims *)

(** C1.  [PUT /song/1] with a body whose title and lyrics both differ from
    the stored ones: the document is rewritten with the new title and
    lyrics, and the answer is 200 with "song found, but nothing updated"
    instead of the updated song object. *)
Theorem update_song_changed_reports_nothing_updated :
  let song_data : payload := {[ "title" := JStr "x"; "lyrics" := JStr "y" ]} in
  (seeded !! 0%nat) ≫= (.!! "title") = Some (BJson (JStr "a"))
  ∧ (seeded !! 0%nat) ≫= (.!! "lyrics") = Some (BJson (JStr "b"))
  ∧ (seeded !! 0%nat) ≫= (.!! "id") = Some (BJson (JInt 1))
  ∧ (after (PutSong 1 song_data) seeded !! 0%nat) ≫= (.!! "title") = Some (BJson (JStr "x"))
  ∧ (after (PutSong 1 song_data) seeded !! 0%nat) ≫= (.!! "lyrics") = Some (BJson (JStr "y"))
  ∧ reply (PutSong 1 song_data) seeded =
    Response (message "message" "song found, but nothing updated") 200.
Proof. vm_compute. by split_and!. Qed.

(** C2.  [POST /song] with a body whose [id] is the id of a stored document
    answers 302 with [{"Message": "song with id {id} already present"}] and
    leaves the collection as it was.  When no document has that id, the body
    is appended to the collection as a new document that holds every field
    of the body, and the answer is 201 with [{"inserted id": ...}] naming
    the [_id] of that document, which, unless the body brought its own, is
    an identifier no other document has.  The id is any JSON scalar but
    [null]. *)
Theorem create_song_conflict_or_insert
    (c : collection) (song_data : payload) (id : jval) :
  song_data !! "id" = Some id →
  id ≠ JNull →
  ((∃ d, d ∈ c ∧ d !! "id" = Some (BJson id)) →
     reply (PostSong song_data) c =
       Response
         (message "Message" ("song with id " +:+ pystr id +:+ " already present"))
         302
     ∧ after (PostSong song_data) c = c)
  ∧ ((∀ d, d ∈ c → d !! "id" ≠ Some (BJson id)) →
     ∃ inserted_id d,
       reply (PostSong song_data) c =
         Response (message "inserted id" (bstr inserted_id)) 201
       ∧ after (PostSong song_data) c = c ++ [d]
       ∧ stored_as song_data d
       ∧ d !! "_id" = Some inserted_id
       ∧ (∀ k, k ≠ "_id" → song_data !! k = None → d !! k = None)
       ∧ (song_data !! "_id" = None →
            ∃ o, inserted_id = BOid o ∧ ∀ d', d' ∈ c → d' !! "_id" ≠ Some (BOid o))).
Proof.
  intros Hid Hnull. unfold reply, after.
  rewrite serve_post_song, Hid, truthy_find by done.
  split.
  - intros (d & Hd & Hn).
    rewrite bool_decide_eq_true_2; [done |].
    apply (find_is_Some _ c d); [done |]. by apply matches_id_value.
  - intros Habsent.
    rewrite bool_decide_eq_false_2.
    + exists (assign_id song_data c).1, (assign_id song_data c).2. simpl.
      split_and!; [done | done | | | |].
      * intros k v Hk. by apply assign_id_fields.
      * apply assign_id_id.
      * intros k Hne Hk. by apply assign_id_other.
      * intros Hnone. exists (fresh_oid c). split.
        -- unfold assign_id. by rewrite Hnone.
        -- intros d' Hd'. by apply fresh_oid_unused.
    + intros [d Hfind]. apply find_Some in Hfind as (i & Hi & Hd & _).
      apply matches_id_value in Hd; [| done]. destruct (Habsent d); [| done].
      by eapply list_elem_of_lookup_2.
Qed.

Lemma create_song_conflict_or_insert_witness :
  (reply (PostSong song1') seeded =
     Response (message "Message" "song with id 1 already present") 302
   ∧ after (PostSong song1') seeded = seeded)
  ∧ status (reply (PostSong song3) seeded) = 201.
Proof.
  split.
  - apply (create_song_conflict_or_insert seeded song1' (JInt 1));
      [reflexivity | discriminate |].
    apply Exists_exists. by_evaluation.
  - destruct (create_song_conflict_or_insert seeded song3 (JInt 3)) as [_ Hinsert];
      [reflexivity | discriminate |].
    destruct Hinsert as (inserted_id & d & -> & _).
    + apply Forall_forall. by_evaluation.
    + reflexivity.
Defined.




(** C4 (as stated) fails for [GET /song/{id}]: the song object it returns
    has the [_id] member of the stored document. *)
Lemma get_song_by_id_exposes_id :
  status (reply (GetSong 1) seeded) = 200
  ∧ body_exposes_id (body (reply (GetSong 1) seeded)) = true
  ∧ ∃ fields,
      body (reply (GetSong 1) seeded) = Json (JObj fields)
      ∧ json_field "_id" fields =
        Some (JObj [("$oid", JVal (JStr "000000000000000000000001"))]).
Proof.
  split_and!; [by vm_compute .. |].
  eexists. split; [by vm_compute | by vm_compute].
Qed.

(** C4 (amended).  An answer has an [_id] member only if it is a 200 answer
    of [GET /song], of [GET /song/{id}], or of [PUT /song/{id}] other than
    "nothing updated": no answer of [GET /health], [GET /count],
    [POST /song] or [DELETE /song/{id}], and no 404, 302 or 500 answer, has
    one, whichever store calls raised.  [GET /song/{id}] returns the first
    document with the id, member for member, its stored [_id] included (an
    [ObjectId] as [{"$oid": ...}]), and [GET /song] returns every document
    of the collection so, in order. *)
Theorem internal_id_exposure (c : collection) :
  (∀ failing r,
     body_exposes_id (body (reply_with failing r c)) = true →
     status (reply_with failing r c) = 200
     ∧ (r = GetSongs
        ∨ (∃ id, r = GetSong id)
        ∨ (∃ id song_data,
             r = PutSong id song_data
             ∧ reply_with failing r c ≠ answer_nothing_updated)))
  ∧ (∀ id,
       (∃ d, d ∈ c ∧ d !! "id" = Some (BJson (JInt id))) →
       ∃ i d song,
         c !! i = Some d
         ∧ d !! "id" = Some (BJson (JInt id))
         ∧ (∀ j dj, (j < i)%nat → c !! j = Some dj →
              dj !! "id" ≠ Some (BJson (JInt id)))
         ∧ reply (GetSong id) c = Response (Json song) 200
         ∧ shows d song
         ∧ (has_internal_id d → exposes_id song = true))
  ∧ (∃ songs_list,
       reply GetSongs c = Response (Json (JObj [("songs", JArr songs_list)])) 200
       ∧ Forall2 shows c songs_list
       ∧ ((∃ d, d ∈ c ∧ has_internal_id d) →
            body_exposes_id (body (reply GetSongs c)) = true)).
Proof.
  split_and!.
  - intros failing r. unfold reply_with.
    destruct r as [| | |n|song_data|n song_data|n].
    + rewrite serve_with_get_health. by destruct (raises failing).
    + rewrite serve_with_get_count. by destruct (raises failing).
    + rewrite serve_with_get_songs.
      destruct (raises failing); simpl; [done | auto].
    + rewrite serve_with_get_song. unfold reply. rewrite serve_get_song.
      destruct (raises failing); simpl; [done |].
      destruct (find _ c); [eauto | done].
    + rewrite serve_with_post_song, serve_post_song.
      destruct (song_data !! "id"); simpl; [| done].
      destruct (raises failing); simpl; [done |].
      destruct (truthy _); simpl; [done |]. by destruct (raises _).
    + destruct (serve_with_put_song failing n song_data c)
        as [-> | [(text & ->) | [(text & ->) | (text & ->)]]]; simpl; try done.
      fold (reply (PutSong n song_data) c). intros Hexp.
      split; [by apply reply_put_song_exposes |].
      right; right. exists n, song_data. split; [done |].
      intros Heq. by rewrite Heq in Hexp.
    + rewrite serve_with_delete_song, serve_delete_song.
      destruct (raises failing); simpl; [done |]. by destruct (find _ c).
  - intros n (d0 & Hd0 & Hid0).
    destruct (find_is_Some (matches_id (JInt n)) c d0) as [d Hfind];
      [done | by apply matches_id_int |].
    unfold reply. rewrite serve_get_song, Hfind. simpl.
    apply find_Some in Hfind as (i & Hi & Hd & Hfirst).
    exists i, d, (parse_json d). split_and!.
    + done.
    + by apply matches_id_int.
    + intros j dj Hj Hdj Hidj. apply matches_id_int in Hidj.
      by rewrite (Hfirst j dj Hj Hdj) in Hidj.
    + done.
    + apply shows_parse_json.
    + apply exposes_id_parse_json.
  - exists (parse_json <$> c). unfold reply. rewrite serve_get_songs. simpl.
    split_and!; [done | apply shows_collection |].
    intros Hsome. by apply exposes_id_songs.
Qed.

Lemma internal_id_exposure_witness :
  (status (reply_with [] (GetSong 1) seeded) = 200
   ∧ (GetSong 1 = GetSongs
      ∨ (∃ id, GetSong 1 = GetSong id)
      ∨ (∃ id song_data,
           GetSong 1 = PutSong id song_data
           ∧ reply_with [] (GetSong 1) seeded ≠ answer_nothing_updated)))
  ∧ body_exposes_id (body (reply GetSongs seeded)) = true
  ∧ ∃ i d song,
      seeded !! i = Some d
      ∧ d !! "id" = Some (BJson (JInt 2))
      ∧ (∀ j dj, (j < i)%nat → seeded !! j = Some dj →
           dj !! "id" ≠ Some (BJson (JInt 2)))
      ∧ reply (GetSong 2) seeded = Response (Json song) 200
      ∧ shows d song
      ∧ (has_internal_id d → exposes_id song = true).
Proof.
  split; [| split].
  - apply (internal_id_exposure seeded). reflexivity.
  - destruct (internal_id_exposure seeded) as (_ & _ & songs_list & _ & _ & Hexp).
    apply Hexp. apply Exists_exists. by_evaluation.
  - apply (internal_id_exposure seeded). apply Exists_exists. by_evaluation.
Defined.

(** C5.  [PUT /song/{id}] can introduce two documents with equal id:
    [update_song] hands its whole body to [$set] and never looks at the
    body's [id], where [create_song] refuses an id that is present.  On the
    collection start-up leaves from songs 1 and 2, in which no two
    documents share an id, [POST /song] with a body of id 2 is answered 302
    and changes nothing, while [PUT /song/1] with the same body writes id 2
    onto the first document; the handler then finds no document under id 1,
    fails on [None["lyrics"]] and answers 500, and the collection, reached
    from start-up by this one request, holds two documents with id 2. *)
Theorem update_song_duplicates_id :
  let song_data : payload :=
    {[ "id" := JInt 2; "title" := JStr "x"; "lyrics" := JStr "y" ]} in
  unique_ids seeded
  ∧ omap song_id seeded = [1; 2]
  ∧ reply (PostSong song_data) seeded
    = Response (message "Message" "song with id 2 already present") 302
  ∧ after (PostSong song_data) seeded = seeded
  ∧ reachable any_request (Some [song1; song2]) []
      (after (PutSong 1 song_data) seeded)
  ∧ calls (PutSong 1 song_data) seeded = [FindOne; UpdateOne; FindOne]
  ∧ reply (PutSong 1 song_data) seeded
    = answer_error "'NoneType' object is not subscriptable"
  ∧ length (after (PutSong 1 song_data) seeded) = 2%nat
  ∧ (after (PutSong 1 song_data) seeded !! 0%nat) ≫= (.!! "id")
    = Some (BJson (JInt 2))
  ∧ (after (PutSong 1 song_data) seeded !! 1%nat) ≫= (.!! "id")
    = Some (BJson (JInt 2))
  ∧ ¬ unique_ids (after (PutSong 1 song_data) seeded).
Proof.
  split_and!.
  - by_evaluation.
  - vm_compute. reflexivity.
  - vm_compute. reflexivity.
  - vm_compute. reflexivity.
  - apply reachable_serve; [done | apply reachable_startup].
  - vm_compute. reflexivity.
  - vm_compute. reflexivity.
  - vm_compute. reflexivity.
  - vm_compute. reflexivity.
  - vm_compute. reflexivity.
  - intros Huniq. unfold unique_ids in Huniq.
    change (NoDup [2; 2]) in Huniq. apply NoDup_cons in Huniq as [Hin _].
    apply Hin. apply list_elem_of_here.
Qed.

(** Start-up inserts the seed records without comparing their ids. *)
Lemma startup_duplicates_id :
  omap song_id (startup (Some [song1; song1']) []) = [1; 1].
Proof. by vm_compute. Qed.

(** What the handlers do keep.  [unique_ids] speaks of integer ids, the
    ones a path can name.  If the collection start-up leaves has no two
    documents with the same integer id, then neither has any collection
    reached from it by requests among which no [PUT] carries, in its body,
    an integer id other than the one in its path: [POST] refuses an id that
    is present before it inserts, [DELETE] only removes, and such a [PUT]
    leaves the id of the document it writes in place or removes it. *)
Lemma unique_ids_preserved
    (file : option (list payload)) (c0 c : collection) :
  unique_ids (startup file c0) →
  reachable keeps_id file c0 c →
  unique_ids c.
Proof.
  intros Hstart Hreach. induction Hreach as [|r c Hkeeps Hreach IH].
  - done.
  - by apply unique_ids_after.
Qed.

Lemma unique_ids_preserved_example :
  unique_ids
    (after (DeleteSong 1)
       (after (PutSong 2 {[ "title" := JStr "x"; "lyrics" := JStr "y" ]})
          (after (PostSong song3) seeded))).
Proof.
  apply (unique_ids_preserved (Some [song1; song2]) []).
  - by_evaluation.
  - apply reachable_serve; [exact I |].
    apply reachable_serve; [intros n Hn; vm_compute in Hn; discriminate |].
    apply reachable_serve; [exact I |].
    apply reachable_startup.
Qed.

(** C6.  For a payload [p] with an integer [id] that no stored document
    has, [POST /song] with body [p] answers 201, and [GET /song/{p.id}] on
    the resulting collection answers 200 with an object in which every field
    of [p] appears with the value it has in [p]; the only other member of
    that object is [_id]. *)
Theorem post_then_get_returns_payload (c : collection) (p : payload) (n : Z) :
  p !! "id" = Some (JInt n) →
  (∀ d, d ∈ c → d !! "id" ≠ Some (BJson (JInt n))) →
  status (reply (PostSong p) c) = 201
  ∧ ∃ fields,
      reply (GetSong n) (after (PostSong p) c) = Response (Json (JObj fields)) 200
      ∧ (∀ k v, p !! k = Some v → json_field k fields = Some (JVal v))
      ∧ (∀ k, k ≠ "_id" → p !! k = None → json_field k fields = None).
Proof.
  intros Hid Habsent.
  assert (find (matches_id (JInt n)) c = None) as Hnone.
  { apply find_None. intros d Hd. specialize (Habsent d Hd).
    destruct (matches_id (JInt n) d) eqn:E; [| done].
    by apply matches_id_int in E. }
  unfold reply, after. rewrite serve_post_song, Hid, Hnone. simpl.
  split; [done |].
  rewrite serve_get_song, find_app, Hnone. simpl.
  assert (matches_id (JInt n) (assign_id p c).2 = true) as ->.
  { apply matches_id_int. by apply assign_id_fields. }
  eexists. split; [reflexivity |]. split.
  - intros k v Hk. by rewrite json_field_parse_json, (assign_id_fields _ _ _ _ Hk).
  - intros k Hne Hk. by rewrite json_field_parse_json, (assign_id_other _ _ _ Hne Hk).
Qed.

Lemma post_then_get_returns_payload_witness :
  status (reply (PostSong song3) seeded) = 201
  ∧ ∃ fields,
      reply (GetSong 3) (after (PostSong song3) seeded) =
        Response (Json (JObj fields)) 200
      ∧ (∀ k v, song3 !! k = Some v → json_field k fields = Some (JVal v))
      ∧ (∀ k, k ≠ "_id" → song3 !! k = None → json_field k fields = None).
Proof.
  apply (post_then_get_returns_payload seeded song3 3); [reflexivity |].
  apply Forall_forall. by_evaluation.
Defined.

(** C7.  At start-up, a non-empty seed list replaces the collection: the
    collection then consists of one document per seed record, in order, each
    holding the fields of its record, and [GET /count] answers 200 with the
    number of seed records.  An empty seed list, which is also what a seed
    file that cannot be read or parsed yields, leaves the collection as it
    was. *)
Theorem startup_loads_seed (file : option (list payload)) (c : collection) :
  (load_data file ≠ [] →
     Forall2 stored_as (load_data file) (startup file c)
     ∧ startup file c = startup file []
     ∧ reply GetCount (startup file c) =
       Response
         (Json (JObj [("count", JVal (JInt (Z.of_nat (length (load_data file)))))]))
         200)
  ∧ (load_data file = [] → startup file c = c)
  ∧ (file = None → load_data file = []).
Proof.
  split_and!.
  - intros Hseed.
    destruct (insert_many_appends (load_data file) []) as (ds & Hds & Hall).
    rewrite !(startup_seeded file) by done. rewrite Hds. simpl.
    split_and!; [done | done |].
    unfold reply. rewrite serve_get_count. simpl.
    by rewrite (Forall2_length _ _ _ Hall).
  - apply startup_unseeded.
  - by intros ->.
Qed.

Lemma startup_loads_seed_witness :
  reply GetCount (startup (Some [song1; song2; song3]) seeded) =
    Response (Json (JObj [("count", JVal (JInt 3))])) 200
  ∧ startup (Some []) seeded = seeded
  ∧ startup None seeded = seeded.
Proof.
  split_and!.
  - apply (startup_loads_seed (Some [song1; song2; song3]) seeded). discriminate.
  - apply (startup_loads_seed (Some []) seeded). reflexivity.
  - apply (startup_loads_seed None seeded).
    apply (startup_loads_seed None seeded). reflexivity.
Defined.

(** C8.  [GET /song/{id}] on an id that no document of the collection has
    answers 404 with [{"message": "song with id not found"}] and leaves the
    collection unchanged. *)
Theorem get_song_by_id_not_found (c : collection) (id : Z) :
  (∀ d, d ∈ c → d !! "id" ≠ Some (BJson (JInt id))) →
  reply (GetSong id) c = Response (message "message" "song with id not found") 404
  ∧ after (GetSong id) c = c.
Proof.
  intros Habsent. split; [by apply get_song_by_id_absent |].
  unfold after. by rewrite serve_get_song.
Qed.

Lemma get_song_by_id_not_found_witness :
  reply (GetSong 3) seeded = Response (message "message" "song with id not found") 404
  ∧ after (GetSong 3) seeded = seeded.
Proof.
  apply (get_song_by_id_not_found seeded 3).
  apply Forall_forall. by_evaluation.
Defined.

(** C9 (as stated) fails when two documents carry the id: [DELETE] removes
    the first of them only, and the [GET] that follows finds the other. *)
Lemma delete_then_get_finds_duplicate :
  let c := startup (Some [song1; song1']) [] in
  reply (DeleteSong 1) c = Response (Text "") 204
  ∧ status (reply (GetSong 1) (after (DeleteSong 1) c)) = 200.
Proof. vm_compute. by split. Qed.

(** C9 (amended).  [DELETE /song/{id}] answers 404 with
    [{"message": "song not found"}] and leaves the collection unchanged when
    no document has the id.  When some document has it, the first such
    document is removed, every other document stays, and the answer is 204
    with an empty body.  When exactly one document has the id, a
    [GET /song/{id}] that follows the [DELETE] answers 404. *)
Theorem delete_song_removes_first_match (c : collection) (id : Z) :
  ((∀ d, d ∈ c → d !! "id" ≠ Some (BJson (JInt id))) →
     reply (DeleteSong id) c = Response (message "message" "song not found") 404
     ∧ after (DeleteSong id) c = c)
  ∧ ((∃ d, d ∈ c ∧ d !! "id" = Some (BJson (JInt id))) →
     reply (DeleteSong id) c = Response (Text "") 204
     ∧ ∃ i d,
         c !! i = Some d
         ∧ d !! "id" = Some (BJson (JInt id))
         ∧ (∀ j dj, (j < i)%nat → c !! j = Some dj →
              dj !! "id" ≠ Some (BJson (JInt id)))
         ∧ after (DeleteSong id) c = delete i c)
  ∧ (length (with_id id c) = 1%nat →
     reply (DeleteSong id) c = Response (Text "") 204
     ∧ reply (GetSong id) (after (DeleteSong id) c) =
       Response (message "message" "song with id not found") 404).
Proof.
  unfold reply, after. rewrite serve_delete_song. split_and!.
  - intros Habsent.
    destruct (find _ c) as [d|] eqn:E; [| done].
    apply find_Some in E as (i & Hi & Hd & _). apply matches_id_int in Hd.
    destruct (Habsent d); [| done]. by eapply list_elem_of_lookup_2.
  - intros (d0 & Hd0 & Hid0).
    destruct (find_is_Some (matches_id (JInt id)) c d0) as [d Hfind];
      [done | by apply matches_id_int |].
    rewrite Hfind. simpl. split; [done |].
    apply find_Some in Hfind as (i & Hi & Hd & Hfirst).
    exists i, d. split_and!.
    + done.
    + by apply matches_id_int.
    + intros j dj Hj Hdj Hidj. apply matches_id_int in Hidj.
      by rewrite (Hfirst j dj Hj Hdj) in Hidj.
    + by apply (remove_first_delete _ c i d).
  - intros Hone.
    destruct (find _ c) as [d|] eqn:E.
    + simpl. split; [done |].
      apply get_song_by_id_absent. intros d' Hd' Hid'.
      assert (d' ∈ with_id id (remove_first (matches_id (JInt id)) c)) as Hin.
      { apply list_elem_of_filter. by split. }
      rewrite with_id_remove_first in Hin by done. by apply elem_of_nil in Hin.
    + assert (with_id id c = []) as Hnil; [| by rewrite Hnil in Hone].
      apply with_id_nil. intros d Hd Hid. rewrite find_None in E.
      apply matches_id_int in Hid. by rewrite (E d Hd) in Hid.
Qed.

Lemma delete_song_removes_first_match_witness :
  (reply (DeleteSong 3) seeded = Response (message "message" "song not found") 404
   ∧ after (DeleteSong 3) seeded = seeded)
  ∧ reply (DeleteSong 2) seeded = Response (Text "") 204
  ∧ reply (GetSong 1) (after (DeleteSong 1) seeded) =
    Response (message "message" "song with id not found") 404.
Proof.
  split; [| split].
  - apply (delete_song_removes_first_match seeded 3).
    apply Forall_forall. by_evaluation.
  - destruct (delete_song_removes_first_match seeded 2) as (_ & Hsome & _).
    apply Hsome. apply Exists_exists. by_evaluation.
  - destruct (delete_song_removes_first_match seeded 1) as (_ & _ & Hone).
    apply Hone. reflexivity.
Defined.

(** C10.  [PUT /song/{id}] on an existing document, with a body whose keys
    are plain field names (not empty, not starting with [$], without a dot,
    and not [_id]: [$set] reads a dotted key as a path and refuses to
    change [_id]), merges the body into it field by field: the first
    document with that id is replaced, in place, by a document in which
    every key of the body has the body's value and every other key has the
    value it had; every other document is left as it was. *)
Theorem update_song_merges_fields (c : collection) (id : Z) (song_data : payload) :
  (∃ d, d ∈ c ∧ d !! "id" = Some (BJson (JInt id))) →
  plain_fields song_data →
  ∃ i d d',
    c !! i = Some d
    ∧ d !! "id" = Some (BJson (JInt id))
    ∧ (∀ j dj, (j < i)%nat → c !! j = Some dj → dj !! "id" ≠ Some (BJson (JInt id)))
    ∧ after (PutSong id song_data) c = <[i := d']> c
    ∧ (∀ k v, song_data !! k = Some v → d' !! k = Some (BJson v))
    ∧ (∀ k, song_data !! k = None → d' !! k = d !! k).
Proof.
  intros (d0 & Hd0 & Hid0) _.
  destruct (find_is_Some (matches_id (JInt id)) c d0) as [d Hfind];
    [done | by apply matches_id_int |].
  apply find_Some in Hfind as (i & Hi & Hd & Hfirst).
  exists i, d, (set_fields song_data d). split_and!.
  - done.
  - by apply matches_id_int.
  - intros j dj Hj Hdj Hidj. apply matches_id_int in Hidj.
    by rewrite (Hfirst j dj Hj Hdj) in Hidj.
  - rewrite after_put_song. by apply update_first_insert.
  - intros k v. apply set_fields_written.
  - intros k. apply set_fields_kept.
Qed.

Lemma update_song_merges_fields_witness :
  ∃ i d d',
    seeded !! i = Some d
    ∧ d !! "id" = Some (BJson (JInt 2))
    ∧ (∀ j dj, (j < i)%nat → seeded !! j = Some dj →
         dj !! "id" ≠ Some (BJson (JInt 2)))
    ∧ after (PutSong 2 {[ "title" := JStr "x"; "year" := JInt 2001 ]}) seeded
      = <[i := d']> seeded
    ∧ (∀ k v, ({[ "title" := JStr "x"; "year" := JInt 2001 ]} : payload) !! k = Some v →
         d' !! k = Some (BJson v))
    ∧ (∀ k, ({[ "title" := JStr "x"; "year" := JInt 2001 ]} : payload) !! k = None →
         d' !! k = d !! k).
Proof.
  apply (update_song_merges_fields seeded 2).
  - apply Exists_exists. by_evaluation.
  - by_evaluation.
Defined.

(** * Further properties of the handlers *)

Section put_answers.
Implicit Types (c : collection) (d : document) (song_data : payload).

Lemma find_exists id c :
  (∃ d, d ∈ c ∧ d !! "id" = Some (BJson (JInt id))) →
  ∃ d, find (matches_id (JInt id)) c = Some d.
Proof.
  intros (d & Hd & Hid).
  apply (find_is_Some (matches_id (JInt id)) c d); [done |].
  by apply matches_id_int.
Qed.

Lemma find_absent id c :
  (∀ d, d ∈ c → d !! "id" ≠ Some (BJson (JInt id))) →
  find (matches_id (JInt id)) c = None.
Proof.
  intros Habsent. apply find_None. intros d Hd.
  destruct (matches_id (JInt id) d) eqn:E; [| done].
  apply matches_id_int in E. by destruct (Habsent d Hd).
Qed.

Lemma leaves_id_value id song_data :
  leaves_id id song_data → ∀ v, song_data !! "id" = Some v → v = JInt id.
Proof. intros [Hnone | Hsome] v Hv; congruence. Qed.

(** What [update_song] answers once its first lookup has found a document,
    in terms of the document its second lookup returns. *)
Lemma reply_put_song_found id song_data c d :
  find (matches_id (JInt id)) c = Some d →
  reply (PutSong id song_data) c =
  (try_except
     (do stored_lyrics <-
        subscript (find (matches_id (JInt id)) (after (PutSong id song_data) c))
          "lyrics";
      do lyrics <- getitem song_data "lyrics";
      do same <-
        (if py_eq stored_lyrics (BJson lyrics) then
           do stored_title <-
             subscript (find (matches_id (JInt id)) (after (PutSong id song_data) c))
               "title";
           do title <- getitem song_data "title";
           ret (py_eq stored_title (BJson title))
         else ret false);
      if same then ret answer_nothing_updated
      else
        do j <-
          jsonify_found (find (matches_id (JInt id)) (after (PutSong id song_data) c));
        ret (Response (Json j) 200))
     [] (after (PutSong id song_data) c)).1.1.
Proof.
  intros Hfind. rewrite after_put_song.
  unfold reply, serve, serve_with, route, update_song, try_except, try_except_as.
  unfold bind at 1. unfold find_one at 1, store_call. rewrite Hfind.
  unfold bind at 1. unfold update_one at 1, store_call.
  unfold bind at 1. unfold find_one at 1, store_call.
  unfold bind, subscript, getitem, jsonify_found, ret, raise.
  repeat (case_match; simplify_eq/=); done.
Qed.

Lemma find_after_put id song_data c d :
  find (matches_id (JInt id)) c = Some d →
  leaves_id id song_data →
  find (matches_id (JInt id)) (after (PutSong id song_data) c)
  = Some (set_fields song_data d).
Proof.
  intros Hfind Hleaves. rewrite after_put_song.
  apply find_after_update; [done |]. by apply leaves_id_value.
Qed.

Lemma find_with_id_nil id c :
  with_id id c = [] → find (matches_id (JInt id)) c = None.
Proof.
  intros Hnil. apply find_absent. intros d Hd Hid.
  assert (d ∈ with_id id c) as Hin by (by apply list_elem_of_filter).
  rewrite Hnil in Hin. by apply elem_of_nil in Hin.
Qed.

Lemma find_with_id_one id c :
  length (with_id id c) = 1%nat → ∃ d, find (matches_id (JInt id)) c = Some d.
Proof.
  intros Hone. destruct (find _ c) as [d|] eqn:E; [by eexists |].
  rewrite find_None in E. rewrite with_id_nil in Hone; [done |].
  intros d Hd Hid. apply matches_id_int in Hid. by rewrite (E d Hd) in Hid.
Qed.

(** When the only document with the id is rewritten under another id, a
    lookup of the id finds nothing. *)
Lemma with_id_update_first_moved id (g : document → document) c :
  (length (with_id id c) ≤ 1)%nat →
  (∀ d, matches_id (JInt id) (g d) = false) →
  with_id id (update_first (matches_id (JInt id)) g c) = [].
Proof.
  intros Hle Hg. induction c as [|d c IH]; [done |].
  rewrite with_id_cons in Hle. simpl.
  destruct (matches_id (JInt id) d) eqn:E.
  - rewrite with_id_cons, Hg. simpl in Hle.
    apply nil_length_inv. lia.
  - rewrite with_id_cons, E. by apply IH.
Qed.

Lemma set_fields_moved id song_data d v :
  song_data !! "id" = Some v → v ≠ JInt id →
  matches_id (JInt id) (set_fields song_data d) = false.
Proof.
  intros Hv Hne. destruct (matches_id _ _) eqn:E; [| done].
  apply matches_id_int in E. rewrite (set_fields_written _ _ _ _ Hv) in E.
  congruence.
Qed.

Lemma find_after_put_moved id song_data c v :
  (length (with_id id c) ≤ 1)%nat →
  song_data !! "id" = Some v → v ≠ JInt id →
  find (matches_id (JInt id)) (after (PutSong id song_data) c) = None.
Proof.
  intros Hle Hv Hne. apply find_with_id_nil. rewrite after_put_song.
  apply with_id_update_first_moved; [done |].
  intros d. by eapply set_fields_moved.
Qed.

Lemma set_fields_idemp song_data d :
  set_fields song_data (set_fields song_data d) = set_fields song_data d.
Proof.
  apply map_eq. intros k. destruct (song_data !! k) as [v|] eqn:Hk.
  - by rewrite !(set_fields_written _ _ _ _ Hk).
  - by rewrite !set_fields_kept.
Qed.

Lemma update_first_idemp (f : document → bool) (g : document → document) c :
  (∀ d, f d = true → f (g d) = true) →
  (∀ d, g (g d) = g d) →
  update_first f g (update_first f g c) = update_first f g c.
Proof.
  intros Hf Hg. induction c as [|d c IH]; [done |]. simpl.
  destruct (f d) eqn:E; simpl.
  - by rewrite (Hf d E), Hg.
  - by rewrite E, IH.
Qed.

Lemma length_update_first (f : document → bool) (g : document → document) c :
  length (update_first f g c) = length c.
Proof.
  induction c as [|d c IH]; [done |]. simpl.
  destruct (f d); simpl; by rewrite ?IH.
Qed.

End put_answers.

(** X1.  [PUT /song/{id}] on an id that no document has answers 404 with
    [{"message": "song not found"}] after a single lookup and leaves the
    collection unchanged, whatever the body holds. *)
Theorem update_song_not_found (c : collection) (id : Z) (song_data : payload) :
  (∀ d, d ∈ c → d !! "id" ≠ Some (BJson (JInt id))) →
  reply (PutSong id song_data) c = Response (message "message" "song not found") 404
  ∧ after (PutSong id song_data) c = c
  ∧ calls (PutSong id song_data) c = [FindOne].
Proof.
  intros Habsent. pose proof (find_absent id c Habsent) as Hnone.
  split_and!.
  - by apply reply_put_song_not_found.
  - rewrite after_put_song. by apply update_first_None.
  - by rewrite calls_put_song, Hnone.
Qed.

Lemma update_song_not_found_witness :
  reply (PutSong 3 ∅) seeded = Response (message "message" "song not found") 404
  ∧ after (PutSong 3 ∅) seeded = seeded
  ∧ calls (PutSong 3 ∅) seeded = [FindOne].
Proof.
  apply (update_song_not_found seeded 3 ∅).
  apply Forall_forall. by_evaluation.
Defined.

(** X2.  When at most one document has the id, [PUT /song/{id}] never
    answers with a song object: a 200 answer is always
    [{"message": "song found, but nothing updated"}]. *)
Theorem update_song_never_returns_song
    (c : collection) (id : Z) (song_data : payload) :
  (length (with_id id c) ≤ 1)%nat →
  status (reply (PutSong id song_data) c) = 200 →
  reply (PutSong id song_data) c = answer_nothing_updated.
Proof.
  intros Hle. destruct (find (matches_id (JInt id)) c) as [d|] eqn:Hfind.
  - rewrite (reply_put_song_found id song_data c d Hfind).
    destruct (song_data !! "id") as [v|] eqn:Hv;
      [destruct (decide (v = JInt id)) as [-> | Hne] |].
    + rewrite (find_after_put id song_data c d Hfind) by (by right).
      unfold try_except, try_except_as, bind, subscript, getitem, ret, raise.
      destruct (song_data !! "lyrics") as [l|] eqn:Hl.
      * rewrite (set_fields_written _ _ _ _ Hl), py_eq_refl.
        destruct (song_data !! "title") as [t|] eqn:Ht.
        -- by rewrite (set_fields_written _ _ _ _ Ht), py_eq_refl.
        -- rewrite set_fields_kept by done. by destruct (d !! "title").
      * rewrite set_fields_kept by done. by destruct (d !! "lyrics").
    + by rewrite (find_after_put_moved id song_data c v Hle Hv Hne).
    + rewrite (find_after_put id song_data c d Hfind) by (by left).
      unfold try_except, try_except_as, bind, subscript, getitem, ret, raise.
      destruct (song_data !! "lyrics") as [l|] eqn:Hl.
      * rewrite (set_fields_written _ _ _ _ Hl), py_eq_refl.
        destruct (song_data !! "title") as [t|] eqn:Ht.
        -- by rewrite (set_fields_written _ _ _ _ Ht), py_eq_refl.
        -- rewrite set_fields_kept by done. by destruct (d !! "title").
      * rewrite set_fields_kept by done. by destruct (d !! "lyrics").
  - by rewrite reply_put_song_not_found.
Qed.

Lemma update_song_never_returns_song_witness :
  reply (PutSong 2 {[ "title" := JStr "x"; "lyrics" := JStr "d" ]}) seeded
  = answer_nothing_updated.
Proof.
  apply (update_song_never_returns_song seeded 2).
  - by_evaluation.
  - reflexivity.
Defined.

(** X3.  [PUT /song/{id}] on an existing document with a body whose keys
    are plain field names, that has no lyrics, or has lyrics but no title,
    and leaves the id alone: the body is merged into the document all the
    same, and the answer is 500 with the name of the missing key as error
    text. *)
Theorem update_song_missing_field (c : collection) (id : Z) (song_data : payload) :
  (∃ d, d ∈ c ∧ d !! "id" = Some (BJson (JInt id))) →
  plain_fields song_data →
  leaves_id id song_data →
  (song_data !! "lyrics" = None →
     reply (PutSong id song_data) c = answer_error "'lyrics'")
  ∧ (is_Some (song_data !! "lyrics") → song_data !! "title" = None →
     reply (PutSong id song_data) c = answer_error "'title'")
  ∧ ∃ i d,
      c !! i = Some d
      ∧ d !! "id" = Some (BJson (JInt id))
      ∧ after (PutSong id song_data) c = <[i := set_fields song_data d]> c.
Proof.
  intros Hsome _ Hleaves. destruct (find_exists id c Hsome) as [d Hfind].
  pose proof (find_after_put id song_data c d Hfind Hleaves) as Hback.
  split_and!.
  - intros Hl. rewrite (reply_put_song_found id song_data c d Hfind), Hback.
    unfold try_except, try_except_as, bind, subscript, getitem, ret, raise.
    rewrite set_fields_kept, Hl by done. by destruct (d !! "lyrics").
  - intros [l Hl] Ht.
    rewrite (reply_put_song_found id song_data c d Hfind), Hback.
    unfold try_except, try_except_as, bind, subscript, getitem, ret, raise.
    rewrite (set_fields_written _ _ _ _ Hl), Hl, py_eq_refl.
    rewrite set_fields_kept, Ht by done. by destruct (d !! "title").
  - apply find_Some in Hfind as (i & Hi & Hd & Hfirst).
    exists i, d. split_and!; [done | by apply matches_id_int |].
    rewrite after_put_song. by apply update_first_insert.
Qed.

Lemma update_song_missing_field_witness :
  reply (PutSong 1 {[ "year" := JInt 2001 ]}) seeded = answer_error "'lyrics'"
  ∧ reply (PutSong 1 {[ "lyrics" := JStr "y" ]}) seeded = answer_error "'title'".
Proof.
  split.
  - apply (update_song_missing_field seeded 1 {[ "year" := JInt 2001 ]}).
    + apply Exists_exists. by_evaluation.
    + by_evaluation.
    + left. reflexivity.
    + reflexivity.
  - destruct (update_song_missing_field seeded 1 {[ "lyrics" := JStr "y" ]})
      as (_ & Htitle & _).
    + apply Exists_exists. by_evaluation.
    + by_evaluation.
    + left. reflexivity.
    + apply Htitle; [by eexists | reflexivity].
Defined.

(** X4.  [PUT /song/{id}] with a body whose [id] field differs from the id
    of the path, when exactly one document has that id: the document is
    rewritten under the body's id, no document is left under the path id,
    and the answer is 500, because the handler subscripts the [None] its
    second lookup returns. *)
Theorem update_song_moves_document
    (c : collection) (id : Z) (song_data : payload) (v : jval) :
  length (with_id id c) = 1%nat →
  song_data !! "id" = Some v →
  v ≠ JInt id →
  reply (PutSong id song_data) c =
    answer_error "'NoneType' object is not subscriptable"
  ∧ with_id id (after (PutSong id song_data) c) = []
  ∧ ∃ i d d',
      c !! i = Some d
      ∧ d !! "id" = Some (BJson (JInt id))
      ∧ after (PutSong id song_data) c = <[i := d']> c
      ∧ d' !! "id" = Some (BJson v).
Proof.
  intros Hone Hv Hne. destruct (find_with_id_one id c Hone) as [d Hfind].
  assert (length (with_id id c) ≤ 1)%nat as Hle by lia.
  pose proof (find_after_put_moved id song_data c v Hle Hv Hne) as Hgone.
  split_and!.
  - by rewrite (reply_put_song_found id song_data c d Hfind), Hgone.
  - rewrite after_put_song. apply with_id_update_first_moved; [done |].
    intros d0. by eapply set_fields_moved.
  - apply find_Some in Hfind as (i & Hi & Hd & Hfirst).
    exists i, d, (set_fields song_data d).
    split_and!; [done | by apply matches_id_int | |].
    + rewrite after_put_song. by apply update_first_insert.
    + by apply set_fields_written.
Qed.

Lemma update_song_moves_document_witness :
  reply (PutSong 1 {[ "id" := JInt 7 ]}) seeded =
    answer_error "'NoneType' object is not subscriptable"
  ∧ with_id 1 (after (PutSong 1 {[ "id" := JInt 7 ]}) seeded) = [].
Proof.
  destruct (update_song_moves_document seeded 1 {[ "id" := JInt 7 ]} (JInt 7))
    as (Hreply & Hgone & _); [reflexivity | reflexivity | discriminate |].
  by split.
Defined.

(** X5.  A [PUT /song/{id}] whose body leaves the id alone is idempotent on
    the collection: sending it twice leaves what sending it once leaves. *)
Theorem update_song_idempotent (c : collection) (id : Z) (song_data : payload) :
  leaves_id id song_data →
  after (PutSong id song_data) (after (PutSong id song_data) c)
  = after (PutSong id song_data) c.
Proof.
  intros Hleaves. rewrite !after_put_song.
  apply update_first_idemp; [| apply set_fields_idemp].
  intros d Hd. apply matches_id_int. apply matches_id_int in Hd.
  destruct Hleaves as [Hnone | Hsame].
  - by rewrite set_fields_kept.
  - by rewrite (set_fields_written _ _ _ _ Hsame).
Qed.

Lemma update_song_idempotent_witness :
  after (PutSong 1 {[ "title" := JStr "x" ]})
    (after (PutSong 1 {[ "title" := JStr "x" ]}) seeded)
  = after (PutSong 1 {[ "title" := JStr "x" ]}) seeded.
Proof.
  apply (update_song_idempotent seeded 1 {[ "title" := JStr "x" ]}).
  left. reflexivity.
Defined.

(** X6.  After a [PUT /song/{id}] on an existing document with a body whose
    keys are plain field names and that leaves the id alone, whatever the
    [PUT] answered once its write was done, [GET /song/{id}] answers 200
    with an object in which every field of the body has the body's value
    and every other field is the one the document had. *)
Theorem update_then_get_returns_body
    (c : collection) (id : Z) (song_data : payload) :
  (∃ d, d ∈ c ∧ d !! "id" = Some (BJson (JInt id))) →
  plain_fields song_data →
  leaves_id id song_data →
  ∃ d fields,
    d ∈ c
    ∧ d !! "id" = Some (BJson (JInt id))
    ∧ reply (GetSong id) (after (PutSong id song_data) c)
      = Response (Json (JObj fields)) 200
    ∧ (∀ k v, song_data !! k = Some v → json_field k fields = Some (JVal v))
    ∧ (∀ k, song_data !! k = None → json_field k fields = parse_value <$> d !! k).
Proof.
  intros Hsome _ Hleaves. destruct (find_exists id c Hsome) as [d Hfind].
  pose proof (find_after_put id song_data c d Hfind Hleaves) as Hback.
  apply find_Some in Hfind as (i & Hi & Hd & _).
  exists d, (prod_map (λ k, k) parse_value <$> map_to_list (set_fields song_data d)).
  split_and!.
  - by eapply list_elem_of_lookup_2.
  - by apply matches_id_int.
  - unfold reply. by rewrite serve_get_song, Hback.
  - intros k v Hk.
    by rewrite json_field_parse_json, (set_fields_written _ _ _ _ Hk).
  - intros k Hk. by rewrite json_field_parse_json, set_fields_kept.
Qed.

Lemma update_then_get_returns_body_witness :
  ∃ d fields,
    d ∈ seeded
    ∧ d !! "id" = Some (BJson (JInt 1))
    ∧ reply (GetSong 1) (after (PutSong 1 {[ "title" := JStr "x" ]}) seeded)
      = Response (Json (JObj fields)) 200
    ∧ (∀ k v, ({[ "title" := JStr "x" ]} : payload) !! k = Some v →
         json_field k fields = Some (JVal v))
    ∧ (∀ k, ({[ "title" := JStr "x" ]} : payload) !! k = None →
         json_field k fields = parse_value <$> d !! k).
Proof.
  apply (update_then_get_returns_body seeded 1 {[ "title" := JStr "x" ]}).
  - apply Exists_exists. by_evaluation.
  - by_evaluation.
  - left. reflexivity.
Defined.

Section answers.
Implicit Types (c : collection) (d : document) (song_data : payload).

(** Once its first lookup has found a document, [update_song] answers 200
    or 500. *)
Lemma status_put_song_found id song_data c d :
  find (matches_id (JInt id)) c = Some d →
  status (reply (PutSong id song_data) c) = 200
  ∨ status (reply (PutSong id song_data) c) = 500.
Proof.
  intros Hfind. unfold reply, serve, serve_with, route, update_song, try_except, try_except_as.
  unfold bind, find_one, update_one, subscript, getitem, jsonify_found, ret, raise, store_call.
  rewrite Hfind. simpl.
  repeat (case_match; simplify_eq/=); auto.
Qed.

Lemma after_delete_song id c :
  after (DeleteSong id) c = remove_first (matches_id (JInt id)) c.
Proof.
  unfold after. rewrite serve_delete_song.
  destruct (find _ c) eqn:E; [done |]. simpl. by rewrite remove_first_None.
Qed.

Lemma length_remove_first (f : document → bool) c d :
  find f c = Some d → length c = S (length (remove_first f c)).
Proof.
  revert d. induction c as [|d0 c IH]; intros d; [done |]. simpl.
  destruct (f d0); [done |]. intros Hfind. simpl. by rewrite (IH d).
Qed.

Lemma remove_first_app (f : document → bool) c d :
  find f c = None → f d = true → remove_first f (c ++ [d]) = c.
Proof.
  intros Hnone Hd. induction c as [|d0 c IH]; simpl in *.
  - by rewrite Hd.
  - destruct (f d0); [done |]. by rewrite IH.
Qed.

Lemma with_id_remove_first_other id m c :
  m ≠ id → with_id m (remove_first (matches_id (JInt id)) c) = with_id m c.
Proof.
  intros Hne. induction c as [|d c IH]; [done |]. simpl.
  destruct (matches_id (JInt id) d) eqn:E.
  - rewrite with_id_cons.
    destruct (matches_id (JInt m) d) eqn:E'; [| done].
    apply matches_id_int in E, E'. congruence.
  - by rewrite !with_id_cons, IH.
Qed.

Lemma with_id_remove_first_same id c :
  length (with_id id (remove_first (matches_id (JInt id)) c))
  = pred (length (with_id id c)).
Proof.
  induction c as [|d c IH]; [done |]. simpl.
  destruct (matches_id (JInt id) d) eqn:E.
  - by rewrite with_id_cons, E.
  - by rewrite !with_id_cons, E.
Qed.

End answers.

(** X7.  The number of documents follows the status of the answer: a 201
    answer comes from [POST /song] only and leaves one document more, a 204
    answer comes from [DELETE /song/{id}] only and leaves one document
    less, and after any other answer the collection has as many documents
    as before. *)
Theorem size_follows_status (r : request) (c : collection) :
  (status (reply r c) = 201 →
     (∃ song_data, r = PostSong song_data)
     ∧ length (after r c) = S (length c))
  ∧ (status (reply r c) = 204 →
     (∃ id, r = DeleteSong id)
     ∧ length c = S (length (after r c)))
  ∧ (status (reply r c) ≠ 201 → status (reply r c) ≠ 204 →
     length (after r c) = length c).
Proof.
  destruct r as [| | |id|song_data|id song_data|id].
  - unfold reply, after. rewrite serve_get_health. simpl. by split_and!.
  - unfold reply, after. rewrite serve_get_count. simpl. by split_and!.
  - unfold reply, after. rewrite serve_get_songs. simpl. by split_and!.
  - unfold reply, after. rewrite serve_get_song. simpl.
    destruct (find _ c); by split_and!.
  - unfold reply, after. rewrite serve_post_song.
    destruct (song_data !! "id") as [v|]; [| by split_and!].
    destruct (truthy _); simpl; [by split_and! |].
    split_and!; [| done | done].
    intros _. split; [by eexists |]. rewrite length_app. simpl. lia.
  - rewrite after_put_song, length_update_first.
    destruct (find (matches_id (JInt id)) c) as [d|] eqn:Hfind.
    + destruct (status_put_song_found id song_data c d Hfind) as [-> | ->];
        by split_and!.
    + rewrite reply_put_song_not_found by done. by split_and!.
  - rewrite after_delete_song. unfold reply. rewrite serve_delete_song.
    destruct (find _ c) as [d|] eqn:Hfind; simpl.
    + split_and!; [done | | done].
      intros _. split; [by eexists |]. by eapply length_remove_first.
    + rewrite remove_first_None by done. by split_and!.
Qed.

Lemma size_follows_status_witness :
  length (after (PostSong song3) seeded) = S (length seeded)
  ∧ length seeded = S (length (after (DeleteSong 2) seeded))
  ∧ length (after (PutSong 1 {[ "title" := JStr "x" ]}) seeded) = length seeded.
Proof.
  split_and!.
  - apply (size_follows_status (PostSong song3) seeded). reflexivity.
  - apply (size_follows_status (DeleteSong 2) seeded). reflexivity.
  - apply (size_follows_status (PutSong 1 {[ "title" := JStr "x" ]}) seeded);
      discriminate.
Defined.

(** X8.  A request answered with 404 or 302 has changed nothing: the
    collection is exactly what it was, for every endpoint. *)
Theorem refusal_leaves_collection (r : request) (c : collection) :
  status (reply r c) = 404 ∨ status (reply r c) = 302 →
  after r c = c.
Proof.
  destruct r as [| | |id|song_data|id song_data|id].
  - done.
  - done.
  - done.
  - unfold after. by rewrite serve_get_song.
  - unfold reply, after. rewrite serve_post_song.
    destruct (song_data !! "id") as [v|]; [| done].
    destruct (truthy _); simpl; [done |]. by intros [? | ?].
  - intros Hstatus. rewrite after_put_song.
    destruct (find (matches_id (JInt id)) c) as [d|] eqn:Hfind.
    + destruct (status_put_song_found id song_data c d Hfind) as [H | H];
        rewrite H in Hstatus; by destruct Hstatus.
    + by apply update_first_None.
  - unfold reply, after. rewrite serve_delete_song.
    destruct (find _ c); simpl; [by intros [? | ?] | done].
Qed.

Lemma refusal_leaves_collection_witness :
  after (PostSong song1') seeded = seeded
  ∧ after (DeleteSong 3) seeded = seeded.
Proof.
  split.
  - apply (refusal_leaves_collection (PostSong song1') seeded). right. reflexivity.
  - apply (refusal_leaves_collection (DeleteSong 3) seeded). left. reflexivity.
Defined.

(** X9.  Once a [POST /song] carrying an id has been answered 201 or 302,
    the [POST /song] served next with the same id is refused with 302 after
    its one lookup and changes nothing, whatever else its body holds and
    whichever store calls raised during the first, provided its own lookup
    does not raise.  The id is any JSON scalar but [null]. *)
Theorem create_song_twice
    (failing next : list (option string))
    (c : collection) (first second : payload) (id : jval) :
  first !! "id" = Some id →
  second !! "id" = Some id →
  id ≠ JNull →
  status (reply_with failing (PostSong first) c) = 201
  ∨ status (reply_with failing (PostSong first) c) = 302 →
  raises next = None →
  reply_with next (PostSong second) (after_with failing (PostSong first) c) =
    Response
      (message "Message" ("song with id " +:+ pystr id +:+ " already present")) 302
  ∧ calls_with next (PostSong second) (after_with failing (PostSong first) c)
    = [FindOne]
  ∧ after_with next (PostSong second) (after_with failing (PostSong first) c)
    = after_with failing (PostSong first) c.
Proof.
  intros Hfirst Hsecond Hnull Hstatus Hnext.
  assert (is_Some (find (matches_id id) (after_with failing (PostSong first) c)))
    as Hfound.
  { revert Hstatus. unfold reply_with, after_with.
    rewrite serve_with_post_song, serve_post_song, Hfirst, truthy_find by done.
    destruct (raises failing); simpl; [by intros [|] |].
    case_bool_decide as Hsome; simpl; [done |].
    destruct (raises (skipn 1 failing)); simpl; [by intros [|] |]. intros _.
    rewrite find_app.
    destruct (find (matches_id id) c) as [d|] eqn:E; [by eexists |]. simpl.
    assert (matches_id id (assign_id first c).2 = true) as ->; [| by eexists].
    apply matches_id_value; [done |]. by apply assign_id_fields. }
  generalize dependent (after_with failing (PostSong first) c). intros c' Hfound.
  unfold reply_with, calls_with, after_with.
  rewrite serve_with_post_song, serve_post_song, Hsecond, Hnext, truthy_find by done.
  by rewrite bool_decide_eq_true_2.
Qed.

Lemma create_song_twice_witness :
  (reply_with [None] (PostSong {[ "id" := JInt 3; "title" := JStr "again" ]})
     (after_with [None; None] (PostSong song3) seeded)
   = Response (message "Message" "song with id 3 already present") 302
   ∧ calls_with [None] (PostSong {[ "id" := JInt 3; "title" := JStr "again" ]})
       (after_with [None; None] (PostSong song3) seeded)
     = [FindOne]
   ∧ after_with [None] (PostSong {[ "id" := JInt 3; "title" := JStr "again" ]})
       (after_with [None; None] (PostSong song3) seeded)
     = after_with [None; None] (PostSong song3) seeded)
  ∧ reply_with [] (PostSong song1) (after_with [] (PostSong song1) seeded)
    = Response (message "Message" "song with id 1 already present") 302.
Proof.
  split.
  - apply (create_song_twice [None; None] [None] seeded song3
             {[ "id" := JInt 3; "title" := JStr "again" ]} (JInt 3));
      [reflexivity | reflexivity | discriminate | left; reflexivity | reflexivity].
  - apply (create_song_twice [] [] seeded song1 song1 (JInt 1));
      [reflexivity | reflexivity | discriminate | right; reflexivity | reflexivity].
Defined.

(** X10.  Creating a song under an integer id that no document has and then
    deleting that id gives back the collection exactly as it was: the
    [POST] answers 201, the [DELETE] answers 204. *)
Theorem create_then_delete_restores (c : collection) (song_data : payload) (n : Z) :
  song_data !! "id" = Some (JInt n) →
  (∀ d, d ∈ c → d !! "id" ≠ Some (BJson (JInt n))) →
  status (reply (PostSong song_data) c) = 201
  ∧ reply (DeleteSong n) (after (PostSong song_data) c) = Response (Text "") 204
  ∧ after (DeleteSong n) (after (PostSong song_data) c) = c.
Proof.
  intros Hid Habsent. pose proof (find_absent n c Habsent) as Hnone.
  assert (matches_id (JInt n) (assign_id song_data c).2 = true) as Hnew.
  { apply matches_id_int. by apply assign_id_fields. }
  assert (after (PostSong song_data) c = c ++ [(assign_id song_data c).2]) as Hafter.
  { unfold after. by rewrite serve_post_song, Hid, Hnone. }
  split_and!.
  - unfold reply. by rewrite serve_post_song, Hid, Hnone.
  - rewrite Hafter. unfold reply. rewrite serve_delete_song, find_app, Hnone.
    simpl. by rewrite Hnew.
  - rewrite Hafter, after_delete_song. by apply remove_first_app.
Qed.

Lemma create_then_delete_restores_witness :
  status (reply (PostSong song3) seeded) = 201
  ∧ reply (DeleteSong 3) (after (PostSong song3) seeded) = Response (Text "") 204
  ∧ after (DeleteSong 3) (after (PostSong song3) seeded) = seeded.
Proof.
  apply (create_then_delete_restores seeded song3 3); [reflexivity |].
  apply Forall_forall. by_evaluation.
Defined.

(** X11.  The read endpoints agree with each other: [GET /song] returns one
    object per document, as many as [GET /count] counts, and a song object
    that [GET /song/{id}] returns with 200 is one of them and has the id
    of the path in its [id] member. *)
Theorem reads_agree (c : collection) :
  ∃ songs_list,
    reply GetSongs c = Response (Json (JObj [("songs", JArr songs_list)])) 200
    ∧ reply GetCount c =
      Response (Json (JObj [("count", JVal (JInt (Z.of_nat (length songs_list))))])) 200
    ∧ ∀ id,
        status (reply (GetSong id) c) = 200 →
        ∃ fields,
          reply (GetSong id) c = Response (Json (JObj fields)) 200
          ∧ JObj fields ∈ songs_list
          ∧ json_field "id" fields = Some (JVal (JInt id)).
Proof.
  exists (parse_json <$> c). unfold reply.
  rewrite serve_get_songs, serve_get_count, length_fmap. simpl.
  split_and!; [done | done |].
  intros n. rewrite serve_get_song. simpl.
  destruct (find _ c) as [d|] eqn:Hfind; [| done]. intros _.
  apply find_Some in Hfind as (i & Hi & Hd & _). apply matches_id_int in Hd.
  exists (prod_map id parse_value <$> map_to_list d). split_and!.
  - done.
  - apply list_elem_of_fmap. exists d. split; [done |].
    by eapply list_elem_of_lookup_2.
  - by rewrite json_field_parse_json, Hd.
Qed.



(** X13.  [DELETE /song/{id}] removes one document at most: of the
    documents that have the id, one fewer is left (none fewer when there
    was none), and the documents of every other id are left as they
    were. *)
Theorem delete_song_removes_one (c : collection) (id : Z) :
  length (with_id id (after (DeleteSong id) c)) = pred (length (with_id id c))
  ∧ ∀ m, m ≠ id → with_id m (after (DeleteSong id) c) = with_id m c.
Proof.
  rewrite after_delete_song. split.
  - apply with_id_remove_first_same.
  - intros m Hne. by apply with_id_remove_first_other.
Qed.

Lemma delete_song_removes_one_witness :
  with_id 1 (after (DeleteSong 2) seeded) = with_id 1 seeded.
Proof.
  apply (delete_song_removes_one seeded 2). discriminate.
Defined.

Lemma reads_agree_witness :
  ∃ songs_list fields,
    reply GetSongs seeded = Response (Json (JObj [("songs", JArr songs_list)])) 200
    ∧ reply (GetSong 1) seeded = Response (Json (JObj fields)) 200
    ∧ JObj fields ∈ songs_list
    ∧ json_field "id" fields = Some (JVal (JInt 1)).
Proof.
  destruct (reads_agree seeded) as (songs_list & Hsongs & _ & Hone).
  destruct (Hone 1) as (fields & Hreply & Hin & Hid); [reflexivity |].
  exists songs_list, fields.
  exact (conj Hsongs (conj Hreply (conj Hin Hid))).
Defined.

(** X14.  A [PUT /song/{id}] on an existing document whose body carries a
    title and lyrics and leaves the id alone is always answered with
    [{"message": "song found, but nothing updated"}], whatever title and
    lyrics the document had, and also when several documents share the
    id. *)
Theorem update_song_answers_nothing_updated
    (c : collection) (id : Z) (song_data : payload) :
  (∃ d, d ∈ c ∧ d !! "id" = Some (BJson (JInt id))) →
  leaves_id id song_data →
  is_Some (song_data !! "title") →
  is_Some (song_data !! "lyrics") →
  reply (PutSong id song_data) c = answer_nothing_updated.
Proof.
  intros Hsome Hleaves [title Htitle] [lyrics Hlyrics].
  destruct (find_exists id c Hsome) as [d Hfind].
  apply (update_song_reports_nothing_updated id song_data c d title lyrics);
    [done | by apply leaves_id_value | done | done].
Qed.

Lemma update_song_answers_nothing_updated_witness :
  reply (PutSong 1 {[ "title" := JStr "x"; "lyrics" := JStr "y" ]})
    (startup (Some [song1; song1']) [])
  = answer_nothing_updated.
Proof.
  apply (update_song_answers_nothing_updated
           (startup (Some [song1; song1']) []) 1
           {[ "title" := JStr "x"; "lyrics" := JStr "y" ]}).
  - apply Exists_exists. by_evaluation.
  - left. reflexivity.
  - by_evaluation.
  - by_evaluation.
Defined.

(** X15.  Every request changes at most one document: the collection it
    leaves is the one it found, or that one with a document appended, with
    one document replaced in place, or with one document removed; the
    other documents keep their order. *)
Theorem single_document_change (r : request) (c : collection) :
  after r c = c
  ∨ (∃ d, after r c = c ++ [d])
  ∨ (∃ i d d', c !! i = Some d ∧ after r c = <[i := d']> c)
  ∨ (∃ i d, c !! i = Some d ∧ after r c = delete i c).
Proof.
  destruct r as [| | |id|song_data|id song_data|id].
  - by left.
  - by left.
  - by left.
  - left. unfold after. by rewrite serve_get_song.
  - unfold after. rewrite serve_post_song.
    destruct (song_data !! "id"); [| by left].
    destruct (truthy _); [by left |]. right; left. by eexists.
  - rewrite after_put_song.
    destruct (find (matches_id (JInt id)) c) as [d|] eqn:Hfind.
    + apply find_Some in Hfind as (i & Hi & Hd & Hfirst).
      right; right; left. exists i, d, (set_fields song_data d).
      split; [done |]. by apply update_first_insert.
    + left. by apply update_first_None.
  - rewrite after_delete_song.
    destruct (find (matches_id (JInt id)) c) as [d|] eqn:Hfind.
    + apply find_Some in Hfind as (i & Hi & Hd & Hfirst).
      right; right; right. exists i, d.
      split; [done |]. by apply (remove_first_delete _ c i d).
    + left. by apply remove_first_None.
Qed.

(** X16.  After a start-up that loaded seed records, the ids in the
    collection are the ids of the seed records, in the order of the file:
    nothing is checked or dropped, so the collection has no two documents
    with the same id exactly when the seed file has no two records with
    the same id. *)
Theorem startup_copies_seed_ids (file : option (list payload)) (c : collection) :
  load_data file ≠ [] →
  omap song_id (startup file c) = omap payload_id (load_data file)
  ∧ length (startup file c) = length (load_data file)
  ∧ (unique_ids (startup file c) ↔ NoDup (omap payload_id (load_data file))).
Proof.
  intros Hseed. split_and!.
  - by rewrite startup_seeded, omap_song_id_insert_many.
  - rewrite startup_seeded by done.
    destruct (insert_many_appends (load_data file) []) as (ds & -> & Hall).
    simpl. symmetry. by eapply Forall2_length.
  - by apply startup_unique_ids.
Qed.

Lemma startup_copies_seed_ids_witness :
  omap song_id (startup (Some [song1; song1'; song3]) seeded) = [1; 1; 3]
  ∧ length (startup (Some [song1; song1'; song3]) seeded) = 3%nat.
Proof.
  destruct (startup_copies_seed_ids (Some [song1; song1'; song3]) seeded)
    as (Hids & Hlen & _); [discriminate |].
  split; [exact Hids | exact Hlen].
Defined.

(** X17.  After a start-up that loaded seed records, every document the
    service ever holds has an [_id] field, whatever requests were served,
    and so every song object that [GET /song/{id}] returns shows it. *)
Theorem seeded_documents_have_internal_id
    (file : option (list payload)) (c0 c : collection) :
  load_data file ≠ [] →
  reachable any_request file c0 c →
  Forall has_internal_id c
  ∧ ∀ id,
      status (reply (GetSong id) c) = 200 →
      body_exposes_id (body (reply (GetSong id) c)) = true.
Proof.
  intros Hseed Hreach. split.
  - by eapply reachable_has_internal_id.
  - intros id. by eapply reachable_get_song_exposes_id.
Qed.

Lemma seeded_documents_have_internal_id_witness :
  Forall has_internal_id (after (PostSong song3) seeded)
  ∧ body_exposes_id (body (reply (GetSong 3) (after (PostSong song3) seeded))) = true.
Proof.
  destruct (seeded_documents_have_internal_id
              (Some [song1; song2]) [] (after (PostSong song3) seeded))
    as [Hall Hget].
  - discriminate.
  - apply reachable_serve; [exact I | apply reachable_startup].
  - split; [exact Hall |]. apply Hget. reflexivity.
Defined.

(** X18.  The connection URL.  The module gives up before building a URL
    exactly when [MONGODB_SERVICE] is unset or empty.  Otherwise the URL is
    [mongodb://{user}:{password}@{service}:{port}] when user name and
    password are both set and non-empty, and [mongodb://{service}:{port}]
    when either is unset or empty: a password without a user name, or a
    user name without a password, is ignored.  The port is the text of
    [MONGODB_PORT], or [27017] when that is unset. *)
Theorem mongodb_url_cases (environ : gmap string string) :
  (mongodb_url environ = None ↔
     environ !! "MONGODB_SERVICE" = None ∨ environ !! "MONGODB_SERVICE" = Some "")
  ∧ (∀ service,
       environ !! "MONGODB_SERVICE" = Some service → service ≠ "" →
       (∀ username password,
          environ !! "MONGODB_USERNAME" = Some username → username ≠ "" →
          environ !! "MONGODB_PASSWORD" = Some password → password ≠ "" →
          mongodb_url environ
          = Some ("mongodb://" +:+ username +:+ ":" +:+ password +:+ "@"
                  +:+ service +:+ ":"
                  +:+ default "27017" (environ !! "MONGODB_PORT")))
       ∧ (environ !! "MONGODB_USERNAME" = None
          ∨ environ !! "MONGODB_USERNAME" = Some ""
          ∨ environ !! "MONGODB_PASSWORD" = None
          ∨ environ !! "MONGODB_PASSWORD" = Some "" →
          mongodb_url environ
          = Some ("mongodb://" +:+ service +:+ ":"
                  +:+ default "27017" (environ !! "MONGODB_PORT")))).
Proof.
  split.
  - unfold mongodb_url, getenv, is_set.
    destruct (environ !! "MONGODB_SERVICE") as [service|] eqn:Hs; simpl.
    + case_bool_decide as Hne; simpl.
      * split; [| intros [? | [= ->]]; done].
        by destruct (_ && _).
      * subst service. split; auto.
    + split; auto.
  - intros service Hservice Hne.
    assert (is_set (Some service) = true) as Hset
      by (by apply bool_decide_eq_true).
    assert (is_set (Some "") = false) as Hempty by reflexivity.
    assert (default "" (getenv environ "MONGODB_PORT" (Some "27017"))
            = default "27017" (environ !! "MONGODB_PORT")) as Hport
      by (unfold getenv; by destruct (environ !! "MONGODB_PORT")).
    split.
    + intros username password Hu Hune Hp Hpne.
      unfold mongodb_url. rewrite Hport. unfold getenv.
      rewrite Hservice, Hu, Hp, Hset.
      assert (is_set (Some username) = true) as ->
        by (by apply bool_decide_eq_true).
      assert (is_set (Some password) = true) as ->
        by (by apply bool_decide_eq_true).
      reflexivity.
    + intros Hcred. unfold mongodb_url. rewrite Hport. unfold getenv.
      rewrite Hservice, Hset.
      destruct Hcred as [-> | [-> | [-> | ->]]];
        cbn [is_set negb andb]; rewrite ?Hempty, ?andb_false_r; reflexivity.
Qed.

Lemma mongodb_url_cases_witness :
  mongodb_url {[ "MONGODB_USERNAME" := "root" ]} = None
  ∧ mongodb_url {[ "MONGODB_SERVICE" := "db"; "MONGODB_PASSWORD" := "secret" ]}
    = Some "mongodb://db:27017"
  ∧ mongodb_url {[ "MONGODB_SERVICE" := "db"; "MONGODB_USERNAME" := "root";
                   "MONGODB_PASSWORD" := "secret"; "MONGODB_PORT" := "27018" ]}
    = Some "mongodb://root:secret@db:27018".
Proof.
  split_and!.
  - apply (mongodb_url_cases {[ "MONGODB_USERNAME" := "root" ]}).
    left. reflexivity.
  - destruct (mongodb_url_cases
                {[ "MONGODB_SERVICE" := "db"; "MONGODB_PASSWORD" := "secret" ]})
      as (_ & Hurl).
    destruct (Hurl "db") as (_ & Hplain); [reflexivity | discriminate |].
    apply Hplain. left. reflexivity.
  - destruct (mongodb_url_cases
                {[ "MONGODB_SERVICE" := "db"; "MONGODB_USERNAME" := "root";
                   "MONGODB_PASSWORD" := "secret"; "MONGODB_PORT" := "27018" ]})
      as (_ & Hurl).
    destruct (Hurl "db") as (Hcred & _); [reflexivity | discriminate |].
    apply (Hcred "root" "secret"); [reflexivity | discriminate | reflexivity | discriminate].
Defined.
